(** * beeDaily: the daily regulation tracker of [src/scripts/main.js]

    A shallow embedding of the [DailyTracker] class and of the browser
    services it calls ([Date], [JSON], [localStorage], [Set], [Math.round]),
    followed by the properties of the specification checked against it.

    Conventions of the embedding:
    - a JavaScript string is the list of its UTF-16 code units ([jsstring]);
      [str] turns a literal into one;
    - a 32-bit integer is a [Z] with its wrap-around written out ([ToInt32]);
    - a Number that need not be an integer (a percentage, a temperature, a
      random draw) is the rational it denotes ([Q]): the operations are the
      exact ones, the rounding of IEEE doubles is not part of the model;
    - [localStorage] is a finite map from keys to values;
    - a method that can throw returns a [completion]. *)

From Stdlib Require Import ZArith QArith Qround Qminmax Lia Lqa List Ascii String.
From stdpp Require Import gmap list.
Import ListNotations.

Local Open Scope Z_scope.

(** ** Strings *)

(** UTF-16 code units, as [charCodeAt] returns them. *)
Abbreviation jsstring := (list Z) (only parsing).

Definition str (s : string) : jsstring :=
  List.map (fun a => Z.of_N (N_of_ascii a)) (list_ascii_of_string s).

(** [s.startsWith(p)] *)
Fixpoint startsWith (s p : jsstring) : bool :=
  match p, s with
  | [], _ => true
  | _ :: _, [] => false
  | c :: p', d :: s' => (c =? d) && startsWith s' p'
  end.

(** ** 32-bit integers *)

Module Int32.

Definition ToInt32 (z : Z) : Z := (z + 2 ^ 31) mod 2 ^ 32 - 2 ^ 31.

(** [a << n] *)
Definition shl (a n : Z) : Z := ToInt32 (Z.shiftl (ToInt32 a) (n mod 32)).

(** [a & b] *)
Definition and (a b : Z) : Z := ToInt32 (Z.land (ToInt32 a) (ToInt32 b)).

Definition in_range (z : Z) : Prop := - 2 ^ 31 <= z < 2 ^ 31.

End Int32.

(** ** The quote widget *)

(** [hashCode(str)]: the loop body is
    [hash = ((hash << 5) - hash) + char; hash = hash & hash]. The
    subtraction and the addition are Number operations on values below
    2^53 in magnitude, hence exact. *)
Definition hashCode_step (hash char : Z) : Z :=
  let hash := (Int32.shl hash 5 - hash) + char in
  Int32.and hash hash.

Definition hashCode (s : jsstring) : Z := fold_left hashCode_step s 0.

(** The recurrence of the specification: [hash = hash*31 + charCode],
    wrapped to a signed 32-bit integer at each step. *)
Definition hash31 (s : jsstring) : Z :=
  fold_left (fun hash char => Int32.ToInt32 (hash * 31 + char)) s 0.

Record Quote : Type := mkQuote { quote_text : jsstring; quote_author : jsstring }.

Definition quotes : list Quote :=
  [ mkQuote (str "Progress, not perfection, is the goal.")
            (str "Self-Care Wisdom");
    mkQuote (str "Small steps daily lead to big changes yearly.")
            (str "James Clear");
    mkQuote (str "You don't have to be perfect, you just have to be consistent.")
            (str "Daily Motivation");
    mkQuote (str "Self-care is not selfish. You cannot serve from an empty vessel.")
            (str "Eleanor Brown");
    mkQuote (str "The secret of getting ahead is getting started.")
            (str "Mark Twain");
    mkQuote (str "Your only limit is your mind.")
            (str "Motivational");
    mkQuote (str "Every accomplishment starts with the decision to try.")
            (str "Gail Devers") ].

(** [a[i]] on an array: [undefined] ([None]) off its indices. *)
Definition array_get {A} (a : list A) (i : Z) : option A :=
  if i <? 0 then None else nth_error a (Z.to_nat i).

(** The body of [fetchDailyQuote] once [dateKey] is read: [%] is the
    remainder that takes the sign of the dividend ([Z.rem]). *)
Definition quoteIndex (dateKey : jsstring) : Z :=
  Z.rem (hashCode dateKey) (Z.of_nat (length quotes)).

Definition quoteForKey (dateKey : jsstring) : option Quote :=
  array_get quotes (Z.abs (quoteIndex dateKey)).

(** ** The weather widget: condition codes *)

Inductive Condition : Type := clear | clouds | rain | snow | thunderstorm.

Local Open Scope Q_scope.

(** [getWeatherCondition(code)] on a numeric code. *)
Definition getWeatherCondition (code : Q) : Condition :=
  if Qeq_bool code 0 || Qeq_bool code 1 then clear
  else if Qeq_bool code 2 || Qeq_bool code 3 then clouds
  else if Qle_bool 51 code && Qle_bool code 65 then rain
  else if Qle_bool 71 code && Qle_bool code 75 then snow
  else if Qeq_bool code 95 then thunderstorm
  else clear.

Local Close Scope Q_scope.

(** ** [Date]: from a time value to its ISO rendering *)

Module Date.

Definition msPerDay : Z := 86400000.

Definition Day (t : Z) : Z := t / msPerDay.

Definition InLeapYear (y : Z) : bool :=
  if negb (y mod 4 =? 0) then false
  else if negb (y mod 100 =? 0) then true
  else if negb (y mod 400 =? 0) then false
  else true.

(** Number of the first day of year [y], counted from 1 January 1970. *)
Definition DayFromYear (y : Z) : Z :=
  365 * (y - 1970) + (y - 1969) / 4 - (y - 1901) / 100 + (y - 1601) / 400.

(** The year a day number falls in: an estimate from the mean length of
    a year, moved by one where it misses ([DayFromYear_YearFromDay]). *)
Definition YearFromDay (d : Z) : Z :=
  let y := 1970 + (d * 400) / 146097 in
  if d <? DayFromYear y then y - 1
  else if DayFromYear (y + 1) <=? d then y + 1
  else y.

Definition YearFromTime (t : Z) : Z := YearFromDay (Day t).

Definition DayWithinYear (t : Z) : Z := Day t - DayFromYear (YearFromTime t).

(** Month, 0 for January to 11 for December. *)
Definition MonthFromTime (t : Z) : Z :=
  let d := DayWithinYear t in
  let l := if InLeapYear (YearFromTime t) then 1 else 0 in
  if d <? 31 then 0
  else if d <? 59 + l then 1
  else if d <? 90 + l then 2
  else if d <? 120 + l then 3
  else if d <? 151 + l then 4
  else if d <? 181 + l then 5
  else if d <? 212 + l then 6
  else if d <? 243 + l then 7
  else if d <? 273 + l then 8
  else if d <? 304 + l then 9
  else if d <? 334 + l then 10
  else 11.

(** Day of the month, from 1. *)
Definition DateFromTime (t : Z) : Z :=
  let d := DayWithinYear t in
  let l := if InLeapYear (YearFromTime t) then 1 else 0 in
  match MonthFromTime t with
  | 0 => d + 1
  | 1 => d - 30
  | 2 => d - 58 - l
  | 3 => d - 89 - l
  | 4 => d - 119 - l
  | 5 => d - 150 - l
  | 6 => d - 180 - l
  | 7 => d - 211 - l
  | 8 => d - 242 - l
  | 9 => d - 272 - l
  | 10 => d - 303 - l
  | _ => d - 333 - l
  end.

Definition HourFromTime (t : Z) : Z := (t / 3600000) mod 24.
Definition MinFromTime (t : Z) : Z := (t / 60000) mod 60.
Definition SecFromTime (t : Z) : Z := (t / 1000) mod 60.
Definition msFromTime (t : Z) : Z := t mod 1000.

Definition digit (n : Z) : Z := 48 + n mod 10.

Definition pad2 (n : Z) : jsstring := [digit (n / 10); digit n].
Definition pad3 (n : Z) : jsstring := [digit (n / 100); digit (n / 10); digit n].
Definition pad4 (n : Z) : jsstring :=
  [digit (n / 1000); digit (n / 100); digit (n / 10); digit n].
Definition pad6 (n : Z) : jsstring :=
  [digit (n / 100000); digit (n / 10000); digit (n / 1000);
   digit (n / 100); digit (n / 10); digit n].

(** Four digits for the years 0 to 9999, otherwise a sign and six digits. *)
Definition isoYear (y : Z) : jsstring :=
  if (0 <=? y) && (y <=? 9999) then pad4 y
  else (if y <? 0 then str "-" else str "+") ++ pad6 (Z.abs y).

(** The date part [YYYY-MM-DD] of the rendering. *)
Definition isoDate (t : Z) : jsstring :=
  isoYear (YearFromTime t) ++ str "-" ++ pad2 (MonthFromTime t + 1)
    ++ str "-" ++ pad2 (DateFromTime t).

(** [new Date(t).toISOString()], the UTC rendering
    [YYYY-MM-DDTHH:mm:ss.sssZ] of a time value. *)
Definition toISOString (t : Z) : jsstring :=
  isoDate t ++ str "T" ++ pad2 (HourFromTime t) ++ str ":"
    ++ pad2 (MinFromTime t) ++ str ":" ++ pad2 (SecFromTime t)
    ++ str "." ++ pad3 (msFromTime t) ++ str "Z".

(** The calendar date of the user's time zone: the date part of the local
    time [t + tza], where [tza] is the offset of the zone at [t] in
    milliseconds. *)
Definition localDate (t tza : Z) : jsstring := isoDate (t + tza).

End Date.

(** [s.split(sep)[0]] for a one-character separator: the part of [s]
    before the first [sep], all of [s] when there is none. *)
Fixpoint split_head (s : jsstring) (sep : Z) : jsstring :=
  match s with
  | [] => []
  | c :: s' => if c =? sep then [] else c :: split_head s' sep
  end.

(** [getCurrentDateKey()] when the clock reads [now]:
    [new Date().toISOString().split('T')[0]]. *)
Definition dateKeyAt (now : Z) : jsstring :=
  split_head (Date.toISOString now) 84.

(** The shape [YYYY-MM-DD]: ten characters, digits around two hyphens. *)
Definition is_YYYY_MM_DD (key : jsstring) : bool :=
  match key with
  | [y1; y2; y3; y4; h1; m1; m2; h2; d1; d2] =>
      forallb (fun c => (48 <=? c) && (c <=? 57)) [y1; y2; y3; y4; m1; m2; d1; d2]
      && (h1 =? 45) && (h2 =? 45)
  | _ => false
  end.

(** ** [JSON] *)

(** A parsed value. A number is kept as the decimal [m * 10^e] its
    numeral denotes; the members of an object are in the order of the
    text. *)
#[local] Unset Elimination Schemes.
Inductive json : Type :=
  | JNull
  | JBool (b : bool)
  | JNumber (m e : Z)
  | JString (s : jsstring)
  | JArray (elements : list json)
  | JObject (members : list (jsstring * json)).
#[local] Set Elimination Schemes.

Module JSON.

Definition is_ws (c : Z) : bool :=
  (c =? 32) || (c =? 9) || (c =? 10) || (c =? 13).

Fixpoint skip_ws (s : jsstring) : jsstring :=
  match s with
  | c :: s' => if is_ws c then skip_ws s' else s
  | [] => []
  end.

Definition is_digit (c : Z) : bool := (48 <=? c) && (c <=? 57).

(** Reads a run of digits: its value on top of [acc], its length, and
    the rest of the text. *)
Fixpoint digits (s : jsstring) (acc : Z) (n : Z) : Z * Z * jsstring :=
  match s with
  | c :: s' =>
      if is_digit c then digits s' (acc * 10 + (c - 48)) (n + 1)
      else (acc, n, s)
  | [] => (acc, n, [])
  end.

Definition hex (c : Z) : option Z :=
  if is_digit c then Some (c - 48)
  else if (97 <=? c) && (c <=? 102) then Some (c - 87)
  else if (65 <=? c) && (c <=? 70) then Some (c - 55)
  else None.

Definition hex4 (a b c d : Z) : option Z :=
  match hex a, hex b, hex c, hex d with
  | Some a, Some b, Some c, Some d => Some (((a * 16 + b) * 16 + c) * 16 + d)
  | _, _, _, _ => None
  end.

(** The integer part [0 | [1-9][0-9]*] of a numeral. *)
Definition int_part (s : jsstring) : option (Z * jsstring) :=
  match s with
  | c :: s' =>
      if c =? 48 then Some (0, s')
      else if is_digit c then let '(v, _, r) := digits s 0 0 in Some (v, r)
      else None
  | [] => None
  end.

(** The optional fraction [. [0-9]+]: the mantissa with the fraction
    digits appended and the number of these digits. *)
Definition frac_part (m : Z) (s : jsstring) : option (Z * Z * jsstring) :=
  if startsWith s (str ".") then
    let '(v, n, r) := digits (skipn 1 s) m 0 in
    if n =? 0 then None else Some (v, n, r)
  else Some (m, 0, s).

(** The optional exponent [[eE] [+-]? [0-9]+]. *)
Definition exp_part (s : jsstring) : option (Z * jsstring) :=
  if startsWith s (str "e") || startsWith s (str "E") then
    let s := skipn 1 s in
    let '(sign, s) :=
      if startsWith s (str "+") then (1, skipn 1 s)
      else if startsWith s (str "-") then (-1, skipn 1 s)
      else (1, s) in
    let '(v, n, r) := digits s 0 0 in
    if n =? 0 then None else Some (sign * v, r)
  else Some (0, s).

Definition number (s : jsstring) : option (json * jsstring) :=
  let '(sign, s) :=
    if startsWith s (str "-") then (-1, skipn 1 s) else (1, s) in
  match int_part s with
  | None => None
  | Some (i, s) =>
      match frac_part i s with
      | None => None
      | Some (m, n, s) =>
          match exp_part s with
          | None => None
          | Some (e, s) => Some (JNumber (sign * m) (e - n), s)
          end
      end
  end.

(** The character a one-letter escape stands for. *)
Definition escape (c : Z) : option Z :=
  if c =? 34 then Some 34
  else if c =? 92 then Some 92
  else if c =? 47 then Some 47
  else if c =? 98 then Some 8
  else if c =? 102 then Some 12
  else if c =? 110 then Some 10
  else if c =? 114 then Some 13
  else if c =? 116 then Some 9
  else None.

(** The characters of a string literal after its opening quote, with
    the escapes resolved, up to the closing quote. *)
Fixpoint chars (s : jsstring) : option (jsstring * jsstring) :=
  let cons (c : Z) (r : option (jsstring * jsstring)) :=
    match r with Some (cs, s') => Some (c :: cs, s') | None => None end in
  match s with
  | [] => None
  | c :: s' =>
      if c =? 34 then Some ([], s')
      else if c =? 92 then
        match s' with
        | [] => None
        | e :: s'' =>
            if e =? 117 then
              match s'' with
              | a :: b :: c :: d :: s3 =>
                  match hex4 a b c d with
                  | Some u => cons u (chars s3)
                  | None => None
                  end
              | _ => None
              end
            else
              match escape e with
              | Some u => cons u (chars s'')
              | None => None
              end
        end
      else if c <? 32 then None
      else cons c (chars s')
  end.

(** What reading one value gives: the value and the rest of the text,
    a syntax error, or the end of the fuel. *)
Inductive reading : Type :=
  | Read (v : json) (rest : jsstring)
  | Bad
  | OutOfFuel.

Fixpoint value (fuel : nat) (s : jsstring) : reading :=
  match fuel with
  | O => OutOfFuel
  | S fuel =>
      let s := skip_ws s in
      if startsWith s (str "null") then Read JNull (skipn 4 s)
      else if startsWith s (str "true") then Read (JBool true) (skipn 4 s)
      else if startsWith s (str "false") then Read (JBool false) (skipn 5 s)
      else if startsWith s [34] then
        match chars (skipn 1 s) with
        | Some (cs, r) => Read (JString cs) r
        | None => Bad
        end
      else if startsWith s (str "[") then
        let r := skip_ws (skipn 1 s) in
        if startsWith r (str "]") then Read (JArray []) (skipn 1 r)
        else elements fuel r []
      else if startsWith s (str "{") then
        let r := skip_ws (skipn 1 s) in
        if startsWith r (str "}") then Read (JObject []) (skipn 1 r)
        else members fuel r []
      else
        match number s with
        | Some (v, r) => Read v r
        | None => Bad
        end
  end

(** The elements of an array after its bracket, [acc] being those read
    so far, last first. *)
with elements (fuel : nat) (s : jsstring) (acc : list json) : reading :=
  match fuel with
  | O => OutOfFuel
  | S fuel =>
      match value fuel s with
      | Read v r =>
          let r := skip_ws r in
          if startsWith r (str ",") then elements fuel (skipn 1 r) (v :: acc)
          else if startsWith r (str "]") then
            Read (JArray (rev (v :: acc))) (skipn 1 r)
          else Bad
      | other => other
      end
  end

(** The members of an object after its brace. *)
with members (fuel : nat) (s : jsstring) (acc : list (jsstring * json))
    : reading :=
  match fuel with
  | O => OutOfFuel
  | S fuel =>
      let s := skip_ws s in
      if startsWith s [34] then
        match chars (skipn 1 s) with
        | None => Bad
        | Some (k, r) =>
            let r := skip_ws r in
            if startsWith r (str ":") then
              match value fuel (skipn 1 r) with
              | Read v r =>
                  let r := skip_ws r in
                  if startsWith r (str ",") then
                    members fuel (skipn 1 r) ((k, v) :: acc)
                  else if startsWith r (str "}") then
                    Read (JObject (rev ((k, v) :: acc))) (skipn 1 r)
                  else Bad
              | other => other
              end
            else Bad
        end
      else Bad
  end.

(** [JSON.parse(text)]: [None] is the [SyntaxError] it throws. The fuel
    is never the limit ([value_fuel]). *)
Definition parse (text : jsstring) : option json :=
  match value (2 * length text + 1) text with
  | Read v r => match skip_ws r with [] => Some v | _ => None end
  | _ => None
  end.

End JSON.

(** *** [JSON.stringify] on an array of strings *)

Module Quote.

Definition is_lead (c : Z) : bool := (55296 <=? c) && (c <=? 56319).
Definition is_trail (c : Z) : bool := (56320 <=? c) && (c <=? 57343).

Definition hexdigit (n : Z) : Z := if n <? 10 then 48 + n else 87 + n.

(** [\uxxxx], in lower-case digits. *)
Definition unicode_escape (c : Z) : jsstring :=
  [92; 117; hexdigit ((c / 4096) mod 16); hexdigit ((c / 256) mod 16);
   hexdigit ((c / 16) mod 16); hexdigit (c mod 16)].

Definition quote_unit (c : Z) : jsstring :=
  if c =? 8 then str "\b"
  else if c =? 9 then str "\t"
  else if c =? 10 then str "\n"
  else if c =? 12 then str "\f"
  else if c =? 13 then str "\r"
  else if c =? 34 then [92; 34]
  else if c =? 92 then [92; 92]
  else if (c <? 32) || is_lead c || is_trail c then unicode_escape c
  else [c].

(** The text between the quotes: a surrogate pair goes through, a lone
    surrogate is escaped. *)
Fixpoint quote_chars (s : jsstring) : jsstring :=
  match s with
  | [] => []
  | c :: s' =>
      match s' with
      | d :: s'' =>
          if is_lead c && is_trail d then c :: d :: quote_chars s''
          else quote_unit c ++ quote_chars s'
      | [] => quote_unit c
      end
  end.

Definition QuoteJSONString (s : jsstring) : jsstring :=
  [34] ++ quote_chars s ++ [34].

End Quote.

Fixpoint join (sep : jsstring) (l : list jsstring) : jsstring :=
  match l with
  | [] => []
  | [x] => x
  | x :: l' => x ++ sep ++ join sep l'
  end.

(** [JSON.stringify(a)] for an array [a] of strings. *)
Definition JSON_stringify (a : list jsstring) : jsstring :=
  str "[" ++ join (str ",") (List.map Quote.QuoteJSONString a) ++ str "]".

(** ** [Set], holding strings: the elements in insertion order *)

Module StringSet.

Definition has (s : list jsstring) (x : jsstring) : bool :=
  bool_decide (x ∈ s).

Definition add (s : list jsstring) (x : jsstring) : list jsstring :=
  if has s x then s else s ++ [x].

Definition delete (s : list jsstring) (x : jsstring) : list jsstring :=
  filter (fun y => y ≠ x) s.

Definition size (s : list jsstring) : Z := Z.of_nat (length s).

(** [new Set(items)] *)
Definition of_list (items : list jsstring) : list jsstring :=
  fold_left add items [].

End StringSet.

(** What the iteration of a parsed value by [new Set(v)] yields. *)
Inductive iteration : Type :=
  | Items (l : list jsstring)
  | NotIterable
  | NotStrings.

(** The code points of a string, each as a string. *)
Fixpoint codePoints (s : jsstring) : list jsstring :=
  match s with
  | [] => []
  | c :: s' =>
      match s' with
      | d :: s'' =>
          if Quote.is_lead c && Quote.is_trail d then [c; d] :: codePoints s''
          else [c] :: codePoints s'
      | [] => [[c]]
      end
  end.

Fixpoint strings_of (l : list json) : option (list jsstring) :=
  match l with
  | [] => Some []
  | JString s :: l' =>
      match strings_of l' with Some r => Some (s :: r) | None => None end
  | _ :: _ => None
  end.

(** [null] gives an empty set, an array its elements, a string its code
    points; a boolean, a number and an object are not iterable. An array
    with an element that is not a string is [NotStrings]: the completion
    sets of this model hold task ids only. *)
Definition iterate (v : json) : iteration :=
  match v with
  | JNull => Items []
  | JArray l =>
      match strings_of l with Some items => Items items | None => NotStrings end
  | JString s => Items (codePoints s)
  | JBool _ | JNumber _ _ | JObject _ => NotIterable
  end.

(** ** The schedule *)

Record Task : Type := mkTask
  { task_id : jsstring; task_icon : jsstring; task_text : jsstring }.

Record Section : Type := mkSection
  { section_title : jsstring; section_icon : jsstring; tasks : list Task }.

(** The object of [schedule.json]: its sections under their time of day,
    in the order [Object.keys] and [Object.values] go through them. *)
Definition Schedule : Type := list (jsstring * Section).

Definition Object_values (sch : Schedule) : list Section := List.map snd sch.

(** ** The tracker and the page *)

Inductive Error : Type := SyntaxError | TypeError.

Inductive Tier : Type := basic | big | mega.

Inductive Milestone : Type := great | amazing | perfect.

(** The colour band of the progress bar, from the lowest. *)
Inductive Band : Type := band_low | band_mid | band_high | band_complete.

(** What the page shows or does, logged in the order it happens. *)
Inductive Event : Type :=
  | Bounce (taskId : jsstring)
  | Celebration (tier : Tier) (taskId : jsstring)
  | MilestoneMessage (kind : Milestone)
  | Reload.

Definition defaultCoordinates : json :=
  JObject [ (str "latitude", JNumber 39697722 (-6));
            (str "longitude", JNumber (-104895528) (-6)) ].

(** The fields of [this], then the browser: the clock ([now], in
    milliseconds since the epoch, and the offset [LocalTZA] of the user's
    time zone), [localStorage], and of the document the task rows (under
    their [data-task-id], with whether they show as completed), the
    progress bar (width in percent and band) and the progress text
    ([completedCount], [totalTasks]), each [None] when the element is not
    in the page. *)
Record State : Type := mkState
  { schedule : option Schedule;
    completedTasks : list jsstring;
    storageKey : jsstring;
    currentCoordinates : json;
    now : Z;
    LocalTZA : Z;
    localStorage : gmap jsstring jsstring;
    rows : gmap jsstring bool;
    progressBarFill : option (Q * Band);
    progressText : option (Z * Z);
    events : list Event }.

Definition set_completedTasks (v : list jsstring) (s : State) : State :=
  mkState (schedule s) v (storageKey s) (currentCoordinates s) (now s)
    (LocalTZA s) (localStorage s) (rows s) (progressBarFill s)
    (progressText s) (events s).

Definition set_currentCoordinates (v : json) (s : State) : State :=
  mkState (schedule s) (completedTasks s) (storageKey s) v (now s)
    (LocalTZA s) (localStorage s) (rows s) (progressBarFill s)
    (progressText s) (events s).

Definition set_localStorage (v : gmap jsstring jsstring) (s : State) : State :=
  mkState (schedule s) (completedTasks s) (storageKey s)
    (currentCoordinates s) (now s) (LocalTZA s) v (rows s)
    (progressBarFill s) (progressText s) (events s).

Definition set_rows (v : gmap jsstring bool) (s : State) : State :=
  mkState (schedule s) (completedTasks s) (storageKey s)
    (currentCoordinates s) (now s) (LocalTZA s) (localStorage s) v
    (progressBarFill s) (progressText s) (events s).

Definition set_progressBarFill (v : option (Q * Band)) (s : State) : State :=
  mkState (schedule s) (completedTasks s) (storageKey s)
    (currentCoordinates s) (now s) (LocalTZA s) (localStorage s) (rows s) v
    (progressText s) (events s).

Definition set_progressText (v : option (Z * Z)) (s : State) : State :=
  mkState (schedule s) (completedTasks s) (storageKey s)
    (currentCoordinates s) (now s) (LocalTZA s) (localStorage s) (rows s)
    (progressBarFill s) v (events s).

Definition set_events (v : list Event) (s : State) : State :=
  mkState (schedule s) (completedTasks s) (storageKey s)
    (currentCoordinates s) (now s) (LocalTZA s) (localStorage s) (rows s)
    (progressBarFill s) (progressText s) v.

(** *** Methods: state passing, with exceptions *)

(** How a call ends: with a value, or with an exception thrown; in both
    cases the state is the one reached. *)
Inductive completion (A : Type) : Type :=
  | Normal (a : A) (s : State)
  | Throw (e : Error) (s : State).
Arguments Normal {A} a s.
Arguments Throw {A} e s.

Definition M (A : Type) : Type := State -> completion A.

Definition ret {A} (a : A) : M A := fun s => Normal a s.

Definition bind {A B} (m : M A) (k : A -> M B) : M B :=
  fun s => match m s with
           | Normal a s' => k a s'
           | Throw e s' => Throw e s'
           end.

Definition throw {A} (e : Error) : M A := fun s => Throw e s.

Definition read {A} (f : State -> A) : M A := fun s => Normal (f s) s.

Definition update (f : State -> State) : M unit := fun s => Normal tt (f s).

Notation "x <- m ;; k" := (bind m (fun x => k))
  (at level 100, m at next level, right associativity).
Notation "m ;;; k" := (bind m (fun _ => k))
  (at level 100, right associativity).

(** The state a call ends in. *)
Definition state_of {A} (c : completion A) : State :=
  match c with Normal _ s => s | Throw _ s => s end.

(** The values a method returns where a claim is about them. *)
Inductive jsvalue : Type := undefined | boolean (b : bool).

(** *** [localStorage] *)

Definition getItem (key : jsstring) : M (option jsstring) :=
  read (fun s => localStorage s !! key).

Definition setItem (key value : jsstring) : M unit :=
  update (fun s => set_localStorage (<[key := value]> (localStorage s)) s).

Definition removeItem (key : jsstring) : M unit :=
  update (fun s => set_localStorage (delete key (localStorage s)) s).

(** [Object.keys(localStorage)] *)
Definition storage_keys : M (list jsstring) :=
  read (fun s => List.map fst (map_to_list (localStorage s))).

Definition log (e : Event) : M unit :=
  update (fun s => set_events (events s ++ [e]) s).

Fixpoint forEach {A} (l : list A) (f : A -> M unit) : M unit :=
  match l with
  | [] => ret tt
  | x :: l' => f x ;;; forEach l' f
  end.

(** *** The completion tracker *)

Definition getCurrentDateKey : M jsstring :=
  read (fun s => dateKeyAt (now s)).

(** [JSON.parse(text)], which throws a [SyntaxError] on a text that is
    not JSON. *)
Definition JSON_parse (text : jsstring) : M json :=
  match JSON.parse text with
  | Some v => ret v
  | None => throw SyntaxError
  end.

(** [getStoredCoordinates()]. In [if (stored)] a string counts as true
    unless it is empty, and [null] does not. *)
Definition getStoredCoordinates : M json :=
  today <- getCurrentDateKey ;;
  stored <- getItem (str "weather_location_" ++ today) ;;
  match stored with
  | Some ((_ :: _) as text) => JSON_parse text
  | _ => ret defaultCoordinates
  end.

(** [loadCompletedTasks()]. [None] stands for the one case left out: the
    stored text is an array with an element that is not a string
    ([NotStrings]). *)
Definition loadCompletedTasks (s : State) : option (completion unit) :=
  match localStorage s !! storageKey s with
  | Some ((_ :: _) as saved) =>
      match JSON.parse saved with
      | None => Some (Throw SyntaxError s)
      | Some v =>
          match iterate v with
          | Items l =>
              Some (Normal tt (set_completedTasks (StringSet.of_list l) s))
          | NotIterable => Some (Throw TypeError s)
          | NotStrings => None
          end
      end
  | _ => Some (Normal tt s)
  end.

Definition saveCompletedTasks : M unit :=
  key <- read storageKey ;;
  set <- read completedTasks ;;
  setItem key (JSON_stringify set).

(** [Object.values(schedule).reduce((total, section) =>
    total + section.tasks.length, 0)] *)
Definition countTasks (sch : Schedule) : Z :=
  fold_left (fun total section => total + Z.of_nat (length (tasks section)))
    (Object_values sch) 0.

(** [totalTasks > 0 ? (completedCount / totalTasks) * 100 : 0] *)
Definition percentage (completedCount totalTasks : Z) : Q :=
  if 0 <? totalTasks
  then (inject_Z completedCount / inject_Z totalTasks * 100)%Q
  else 0%Q.

Definition tierOf (percentage : Q) : Tier :=
  if Qle_bool 80 percentage then mega
  else if Qle_bool 50 percentage then big
  else basic.

Definition milestoneOf (percentage : Q) : option Milestone :=
  if Qeq_bool percentage 50 then Some great
  else if Qeq_bool percentage 80 then Some amazing
  else if Qeq_bool percentage 100 then Some perfect
  else None.

(** [celebrateTaskCompletion(taskElement)], for the row of [taskId].
    [Object.values(null)] throws. *)
Definition celebrateTaskCompletion (taskId : jsstring) : M unit :=
  sch <- read schedule ;;
  match sch with
  | None => throw TypeError
  | Some sch =>
      let totalTasks := countTasks sch in
      completedCount <- read (fun s => StringSet.size (completedTasks s)) ;;
      let percentage := percentage completedCount totalTasks in
      log (Bounce taskId) ;;;
      log (Celebration (tierOf percentage) taskId) ;;;
      match milestoneOf percentage with
      | Some kind => log (MilestoneMessage kind)
      | None => ret tt
      end
  end.

Definition bandOf (percentage : Q) : Band :=
  if Qeq_bool percentage 100 then band_complete
  else if Qle_bool 75 percentage then band_high
  else if Qle_bool 50 percentage then band_mid
  else band_low.

Definition updateProgress : M unit :=
  sch <- read schedule ;;
  match sch with
  | None => ret tt
  | Some sch =>
      let totalTasks := countTasks sch in
      completedCount <- read (fun s => StringSet.size (completedTasks s)) ;;
      let percentage := percentage completedCount totalTasks in
      update (fun s =>
        match progressBarFill s with
        | Some _ => set_progressBarFill (Some (percentage, bandOf percentage)) s
        | None => s
        end) ;;;
      update (fun s =>
        match progressText s with
        | Some _ => set_progressText (Some (completedCount, totalTasks)) s
        | None => s
        end)
  end.

(** [toggleTask(taskId)]. [document.querySelector] gives [null] when no
    row carries the id, and [taskElement.querySelector] then throws (the
    rows are looked up by id: an id is taken to be free of the characters
    that would end the quoted value of the selector). The method has no
    [return]: its value is [undefined]. *)
Definition toggleTask (taskId : jsstring) : M jsvalue :=
  taskElement <- read (fun s => rows s !! taskId) ;;
  match taskElement with
  | None => throw TypeError
  | Some _ =>
      completed <- read (fun s => StringSet.has (completedTasks s) taskId) ;;
      (if completed : bool then
         update (fun s =>
           set_completedTasks (StringSet.delete (completedTasks s) taskId) s) ;;;
         update (fun s => set_rows (<[taskId := false]> (rows s)) s)
       else
         update (fun s =>
           set_completedTasks (StringSet.add (completedTasks s) taskId) s) ;;;
         update (fun s => set_rows (<[taskId := true]> (rows s)) s) ;;;
         celebrateTaskCompletion taskId) ;;;
      saveCompletedTasks ;;;
      updateProgress ;;;
      ret undefined
  end.

(** [renderSchedule()]: the rows of the container are rebuilt, one for
    each task of each section. *)
Definition createTaskItem (task : Task) : M unit :=
  update (fun s =>
    let isCompleted := StringSet.has (completedTasks s) (task_id task) in
    set_rows (<[task_id task := isCompleted]> (rows s)) s).

Definition renderSchedule : M unit :=
  sch <- read schedule ;;
  match sch with
  | None => ret tt
  | Some sch =>
      update (set_rows ∅) ;;;
      forEach (Object_values sch) (fun section =>
        forEach (tasks section) createTaskItem)
  end.

(** *** The day rollover monitor *)

(** [s.replace(pat, rep)] for a string pattern: the first occurrence. *)
Fixpoint replace (s pat rep : jsstring) : jsstring :=
  if startsWith s pat then rep ++ skipn (length pat) s
  else match s with
       | [] => []
       | c :: s' => c :: replace s' pat rep
       end.

(** The test of [resetLocationToDefault] on a key: a location record
    of another day than [today]. *)
Definition stale (today key : jsstring) : bool :=
  startsWith key (str "weather_location_")
  && negb (bool_decide (key = str "weather_location_" ++ today)).

Definition resetLocationToDefault : M unit :=
  keys <- storage_keys ;;
  forEach keys (fun key =>
    today <- getCurrentDateKey ;;
    if stale today key then removeItem key else ret tt) ;;;
  update (set_currentCoordinates defaultCoordinates).

(** [window.location.reload()] *)
Definition reload : M unit := log Reload.


(** The callback run every minute. *)
Definition pollRefresh : M unit :=
  currentDateKey <- getCurrentDateKey ;;
  key <- read storageKey ;;
  if negb (bool_decide (currentDateKey = replace key (str "dailyTracker_") []))
  then resetLocationToDefault ;;; reload
  else ret tt.

(** The constructor, up to the call of [init]. *)
Definition constructor : M unit :=
  fun s =>
    let s := mkState None [] (str "dailyTracker_" ++ dateKeyAt (now s))
               (currentCoordinates s) (now s) (LocalTZA s) (localStorage s)
               (rows s) (progressBarFill s) (progressText s) (events s) in
    (coordinates <- getStoredCoordinates ;;
     update (set_currentCoordinates coordinates)) s.

(** *** The quote widget, on the clock *)

(** The quote the promise of [fetchDailyQuote()] resolves to. *)
Definition fetchDailyQuote : M (option Quote) :=
  dateKey <- getCurrentDateKey ;;
  ret (quoteForKey dateKey).

(** *** The weather widget: the mock snapshot and the gauge *)

Local Open Scope Q_scope.

(** [Math.round(x)]: the nearest integer, a half going up. *)
Definition Math_round (x : Q) : Z := Qfloor (x + (1 # 2)).

(** [Math.floor(x)] *)
Definition Math_floor (x : Q) : Z := Qfloor x.

Record WeatherData : Type := mkWeatherData
  { temperature : Z;
    temperatureF : Z;
    high : Z;
    low : Z;
    highF : Z;
    lowF : Z;
    description : option jsstring;
    condition : Condition;
    uvIndex : Z;
    humidity : Z;
    location : jsstring }.

(** [getMockWeatherData(lat, lon)], given what its calls of
    [Math.random()] return, [random k] for the call number [k], and the
    name [getLocationName] resolves to. *)
Definition getMockWeatherData (random : nat -> Q) (locationName : jsstring)
    : WeatherData :=
  let tempC := Math_round (18 + random 0%nat * 15) in
  let tempF := Math_round (inject_Z tempC * 9 / 5 + 32) in
  let highC := (tempC + Math_round (random 1%nat * 5 + 2))%Z in
  let lowC := (tempC - Math_round (random 2%nat * 5 + 2))%Z in
  let highF := Math_round (inject_Z highC * 9 / 5 + 32) in
  let lowF := Math_round (inject_Z lowC * 9 / 5 + 32) in
  {| temperature := tempC;
     temperatureF := tempF;
     high := highC;
     low := lowC;
     highF := highF;
     lowF := lowF;
     description :=
       array_get [str "Sunny"; str "Partly Cloudy"; str "Cloudy"; str "Light Rain"]
         (Math_floor (random 3%nat * 4));
     condition := clear;
     uvIndex := Math_round (1 + random 4%nat * 10);
     humidity := Math_round (40 + random 5%nat * 40);
     location := locationName |}.

(** What [calculateTempPosition] does with its range. *)
Definition degenerate (low high : Q) : bool := Qle_bool high low.

Definition calculateTempPosition (current low high : Q) : Q :=
  if degenerate low high then 50
  else
    let range := high - low in
    let position := (current - low) / range * 100 in
    Qmax 5 (Qmin 95 position).

(** The position of the marker [loadWeather] draws for a snapshot. *)
Definition markerPosition (w : WeatherData) : Q :=
  calculateTempPosition (inject_Z (temperature w)) (inject_Z (low w))
    (inject_Z (high w)).

Local Close Scope Q_scope.

(** ** Further methods *)

(** A UTF-16 code unit. *)
Definition code_unit (c : Z) : Prop := 0 <= c < 65536.

(** The ids of the tasks of a schedule, in the order they are rendered. *)
Definition task_ids (sch : Schedule) : list jsstring :=
  concat (List.map (fun section => List.map task_id (tasks section))
            (Object_values sch)).

(** The rows are those of the tasks of [sch], each checked when its task
    is in the completion set. *)
Definition rows_show (sch : Schedule) (s : State) : Prop :=
  forall taskId,
    rows s !! taskId =
    if bool_decide (taskId ∈ task_ids sch)
    then Some (StringSet.has (completedTasks s) taskId)
    else None.

(** [resetDay()], [confirmed] being the answer to [confirm(...)]. *)
Definition resetDay (confirmed : bool) : M unit :=
  if confirmed then
    update (set_completedTasks []) ;;;
    (key <- read storageKey ;; removeItem key) ;;;
    renderSchedule ;;;
    updateProgress
  else ret tt.

(** The table of [getWeatherDescription]. *)
Definition descriptions : list (Z * jsstring) :=
  [ (0, str "Clear Sky"); (1, str "Mainly Clear"); (2, str "Partly Cloudy");
    (3, str "Overcast"); (45, str "Fog"); (48, str "Depositing Rime Fog");
    (51, str "Light Drizzle"); (53, str "Moderate Drizzle");
    (55, str "Dense Drizzle"); (61, str "Slight Rain");
    (63, str "Moderate Rain"); (65, str "Heavy Rain"); (71, str "Slight Snow");
    (73, str "Moderate Snow"); (75, str "Heavy Snow"); (95, str "Thunderstorm") ].

(** [getWeatherDescription(code)] on a numeric code: [descriptions[code]]
    is the entry whose key is the code, [undefined] without one. *)
Definition getWeatherDescription (code : Q) : jsstring :=
  match find (fun entry => Qeq_bool code (inject_Z (fst entry))) descriptions with
  | Some entry => snd entry
  | None => str "Unknown"
  end.

(** What [fetchWeatherData] reads in the body of a response: of
    [data.current] the temperature, the humidity and the weather code, of
    [data.daily] the first maximum, minimum and UV index, which may be
    missing. *)
Record Forecast : Type := mkForecast
  { temperature_2m : Q;
    relative_humidity_2m : Q;
    weather_code : Q;
    temperature_2m_max : Q;
    temperature_2m_min : Q;
    uv_index_max : option Q }.

(** [x || 5] on a number that may be missing: 0 is falsy. *)
Definition or_5 (x : option Q) : Q :=
  match x with
  | Some q => if Qeq_bool q 0 then 5%Q else q
  | None => 5%Q
  end.

(** The snapshot [fetchWeatherData] builds from a response that is ok. *)
Definition fetchedWeatherData (data : Forecast) (locationName : jsstring)
    : WeatherData :=
  let tempC := Math_round (temperature_2m data) in
  let tempF := Math_round (inject_Z tempC * 9 / 5 + 32)%Q in
  let highC := Math_round (temperature_2m_max data) in
  let lowC := Math_round (temperature_2m_min data) in
  let highF := Math_round (inject_Z highC * 9 / 5 + 32)%Q in
  let lowF := Math_round (inject_Z lowC * 9 / 5 + 32)%Q in
  {| temperature := tempC;
     temperatureF := tempF;
     high := highC;
     low := lowC;
     highF := highF;
     lowF := lowF;
     description := Some (getWeatherDescription (weather_code data));
     condition := getWeatherCondition (weather_code data);
     uvIndex := Math_round (or_5 (uv_index_max data));
     humidity := Math_round (relative_humidity_2m data);
     location := locationName |}.

(** [fetchWeatherData(lat, lon)]: [response] is the body of the forecast
    when the request succeeds with a body of the expected shape, [None]
    when it fails in any way, which leads to the mock snapshot. *)
Definition fetchWeatherData (response : option Forecast) (random : nat -> Q)
    (locationName : jsstring) : WeatherData :=
  match response with
  | Some data => fetchedWeatherData data locationName
  | None => getMockWeatherData random locationName
  end.

(** ** Sample pages *)

Definition sample_schedule : Schedule :=
  [ (str "morning",
     mkSection (str "Morning") (str "fa-sun")
       [ mkTask (str "wake") (str "fa-bed") (str "Wake up");
         mkTask (str "water") (str "fa-glass-water") (str "Drink water") ]);
    (str "evening",
     mkSection (str "Evening") (str "fa-moon")
       [ mkTask (str "read") (str "fa-book") (str "Read");
         mkTask (str "teeth") (str "fa-tooth") (str "Brush teeth");
         mkTask (str "sleep") (str "fa-bed") (str "Lights out") ]) ].

(** 2024-03-11T06:30:00.000Z, and a zone seven hours behind UTC, where
    it is 23:30 on 10 March. *)
Definition sample_time : Z := 1710138600000.
Definition sample_zone : Z := -25200000.

(** The page with [sample_schedule] rendered, the completion set [done]
    and the storage [storage], at [sample_time]. *)
Definition sample_state (done : list jsstring)
    (storage : gmap jsstring jsstring) : State :=
  state_of (renderSchedule
    (mkState (Some sample_schedule) done
       (str "dailyTracker_" ++ dateKeyAt sample_time) defaultCoordinates
       sample_time sample_zone storage ∅ (Some (0%Q, band_low))
       (Some (0, 0)) [])).


(** A storage with the records of two days. *)
Definition two_day_storage : gmap jsstring jsstring :=
  <[str "dailyTracker_2024-03-10" := JSON_stringify [str "wake"; str "read"]]>
    (<[str "weather_location_2024-03-10" := str "{}"]>
       (<[str "weather_location_2024-03-11" := str "{}"]> ∅)).

(** A storage in step with the completion set [done]. *)
Definition synced_storage (done : list jsstring) : gmap jsstring jsstring :=
  <[str "dailyTracker_2024-03-11" := JSON_stringify done]> ∅.

(** [Math.random()] returning one half at every call. *)
Definition half (_ : nat) : Q := (1 # 2)%Q.

(** The page [s], left open until the clock reads [time]. *)
Definition at_time (time : Z) (s : State) : State :=
  mkState (schedule s) (completedTasks s) (storageKey s)
    (currentCoordinates s) time (LocalTZA s) (localStorage s) (rows s)
    (progressBarFill s) (progressText s) (events s).

(** * Properties *)

(** ** Proof tools *)

(** Reduces the projections of a state, and nothing else. *)
Ltac fields :=
  cbn [schedule completedTasks storageKey currentCoordinates now LocalTZA
       localStorage rows progressBarFill progressText events state_of negb].

Ltac fields_in_all :=
  cbn [schedule completedTasks storageKey currentCoordinates now LocalTZA
       localStorage rows progressBarFill progressText events state_of negb] in *.

Ltac setters :=
  unfold set_completedTasks, set_rows, set_events, set_localStorage,
    set_progressBarFill, set_progressText, set_currentCoordinates.

(** Turns the tests on rationals of the context into propositions. *)
Ltac bool_to_Q :=
  repeat match goal with
  | H : Qeq_bool _ _ = true |- _ => apply Qeq_bool_iff in H
  | H : Qeq_bool _ _ = false |- _ => apply Qeq_bool_neq in H
  | H : Qle_bool _ _ = true |- _ => apply Qle_bool_iff in H
  | H : Qle_bool _ _ = false |- _ =>
      apply not_true_iff_false in H; rewrite Qle_bool_iff in H
  end.

(** Goes through the tests of the goal one at a time, and closes each
    branch once no test is left: the two sides agree, or the context is
    contradictory. *)
Ltac case_Q_tests :=
  lazymatch goal with
  | |- context [Qeq_bool ?a ?b] =>
      destruct (Qeq_bool a b) eqn:?; cbn [orb andb]; case_Q_tests
  | |- context [Qle_bool ?a ?b] =>
      destruct (Qle_bool a b) eqn:?; cbn [orb andb]; case_Q_tests
  | |- _ =>
      first [reflexivity | exfalso; bool_to_Q; first [lra | intuition lra]]
  end.

(** ** 32-bit arithmetic *)

Module Int32Facts.
Import Int32.

Lemma ToInt32_range z : in_range (ToInt32 z).
Proof.
  unfold in_range, ToInt32.
  pose proof (Z.mod_pos_bound (z + 2 ^ 31) (2 ^ 32) eq_refl). lia.
Qed.

Lemma ToInt32_decomp z : ToInt32 z = z - (z + 2 ^ 31) / 2 ^ 32 * 2 ^ 32.
Proof. unfold ToInt32. rewrite Z.mod_eq by lia. lia. Qed.

Lemma ToInt32_add_mul z k : ToInt32 (z + k * 2 ^ 32) = ToInt32 z.
Proof.
  unfold ToInt32.
  replace (z + k * 2 ^ 32 + 2 ^ 31) with (z + 2 ^ 31 + k * 2 ^ 32) by lia.
  now rewrite Z_mod_plus_full.
Qed.

Lemma ToInt32_congr a b k : a = b + k * 2 ^ 32 -> ToInt32 a = ToInt32 b.
Proof. intros ->. apply ToInt32_add_mul. Qed.

(** [(hash << 5) - hash] is [hash * 31], modulo 2^32. *)
Lemma wrap_step h c :
  ToInt32 (ToInt32 (h * 32) - h + c) = ToInt32 (h * 31 + c).
Proof.
  apply (ToInt32_congr _ _ (- ((h * 32 + 2 ^ 31) / 2 ^ 32))).
  rewrite (ToInt32_decomp (h * 32)). lia.
Qed.

Lemma ToInt32_id z : in_range z -> ToInt32 z = z.
Proof.
  unfold in_range, ToInt32. intros H.
  rewrite Z.mod_small by lia. lia.
Qed.

Lemma ToInt32_idem z : ToInt32 (ToInt32 z) = ToInt32 z.
Proof. apply ToInt32_id, ToInt32_range. Qed.

Lemma and_diag z : and z z = ToInt32 z.
Proof. unfold and. now rewrite Z.land_diag, ToInt32_idem. Qed.

Lemma shl_5 z : shl z 5 = ToInt32 (z * 32).
Proof.
  unfold shl. change (5 mod 32) with 5.
  rewrite Z.shiftl_mul_pow2 by lia.
  apply (ToInt32_congr _ _ (- ((z + 2 ^ 31) / 2 ^ 32) * 32)).
  rewrite (ToInt32_decomp z). lia.
Qed.
End Int32Facts.

(** ** The quote widget *)

Lemma hashCode_step_wrap hash char :
  hashCode_step hash char = Int32.ToInt32 (hash * 31 + char).
Proof.
  unfold hashCode_step.
  rewrite Int32Facts.and_diag, Int32Facts.shl_5.
  apply Int32Facts.wrap_step.
Qed.

Lemma fold_left_pointwise {A B} (f g : A -> B -> A) :
  (forall a b, f a b = g a b) ->
  forall l a, fold_left f l a = fold_left g l a.
Proof.
  intros Hfg l. induction l as [|b l IH]; intros a; simpl; [reflexivity|].
  now rewrite Hfg, IH.
Qed.

Lemma fold_left_invariant {A B} (P : A -> Prop) (f : A -> B -> A) :
  (forall a b, P (f a b)) ->
  forall l a, P a -> P (fold_left f l a).
Proof.
  intros Hf l. induction l as [|b l IH]; intros a Ha; simpl; [exact Ha|].
  apply IH, Hf.
Qed.

Lemma hashCode_hash31 s : hashCode s = hash31 s.
Proof. apply (fold_left_pointwise _ _ hashCode_step_wrap). Qed.

Lemma hash31_range s : Int32.in_range (hash31 s).
Proof.
  apply (fold_left_invariant Int32.in_range).
  - intros a b. apply Int32Facts.ToInt32_range.
  - unfold Int32.in_range. lia.
Qed.

Lemma abs_rem_7 h : Z.abs (Z.rem h 7) = Z.abs h mod 7.
Proof.
  rewrite <- (Z.rem_abs h 7) by lia. change (Z.abs 7) with 7.
  apply Z.rem_mod_nonneg; lia.
Qed.

Lemma quoteIndex_abs dateKey :
  Z.abs (quoteIndex dateKey) = Z.abs (hash31 dateKey) mod 7.
Proof.
  unfold quoteIndex. rewrite hashCode_hash31.
  change (Z.of_nat (length quotes)) with 7. apply abs_rem_7.
Qed.

Lemma quotes_total i : 0 <= i < 7 -> exists q, array_get quotes i = Some q.
Proof.
  intros H.
  assert (Hi : i = 0 \/ i = 1 \/ i = 2 \/ i = 3 \/ i = 4 \/ i = 5 \/ i = 6) by lia.
  destruct Hi as [->|[->|[->|[->|[->|[->| ->]]]]]]; eexists; reflexivity.
Qed.

Example hashCode_sample :
  hashCode (str "2024-03-11") = -613282019 /\ quoteIndex (str "2024-03-11") = 0.
Proof. split; reflexivity. Qed.

(** C7. For every day-key string, [hashCode] follows the recurrence
    [hash = hash*31 + charCode] wrapped to a signed 32-bit integer at each
    step; the quote selected is the one at index [abs(hash) mod 7] of the
    catalog of seven quotes, which always exists; and the quote
    [fetchDailyQuote] resolves to depends on the state through the day
    key alone, so that two calls on the same key give the same quote. *)
Theorem quote_selection (dateKey : jsstring) :
  hashCode dateKey = hash31 dateKey
  /\ Int32.in_range (hashCode dateKey)
  /\ length quotes = 7%nat
  /\ Z.abs (quoteIndex dateKey) = Z.abs (hashCode dateKey) mod 7
  /\ (exists q, quoteForKey dateKey = Some q
        /\ array_get quotes (Z.abs (hash31 dateKey) mod 7) = Some q)
  /\ (forall s : State,
        fetchDailyQuote s = Normal (quoteForKey (dateKeyAt (now s))) s).
Proof.
  split; [apply hashCode_hash31|].
  split; [rewrite hashCode_hash31; apply hash31_range|].
  split; [reflexivity|].
  split; [rewrite hashCode_hash31; apply quoteIndex_abs|].
  split; [|reflexivity].
  destruct (quotes_total (Z.abs (hash31 dateKey) mod 7)) as [q Hq].
  { apply Z.mod_pos_bound. lia. }
  exists q. split; [|exact Hq].
  unfold quoteForKey. now rewrite quoteIndex_abs.
Qed.

(** ** The weather codes *)

Example weather_condition_table :
  getWeatherCondition 0 = clear /\ getWeatherCondition 2 = clouds
  /\ getWeatherCondition 61 = rain /\ getWeatherCondition 71 = snow
  /\ getWeatherCondition 95 = thunderstorm /\ getWeatherCondition 999 = clear.
Proof. repeat split. Qed.

(** C8. For every numeric weather code, [getWeatherCondition] gives
    clear for 0 and 1, clouds for 2 and 3, rain from 51 to 65, snow from 71
    to 75, thunderstorm for 95, and clear for any other code. *)
Theorem weather_condition (code : Q) :
  ((code == 0 \/ code == 1)%Q -> getWeatherCondition code = clear)
  /\ ((code == 2 \/ code == 3)%Q -> getWeatherCondition code = clouds)
  /\ ((51 <= code /\ code <= 65)%Q -> getWeatherCondition code = rain)
  /\ ((71 <= code /\ code <= 75)%Q -> getWeatherCondition code = snow)
  /\ ((code == 95)%Q -> getWeatherCondition code = thunderstorm)
  /\ (~ (code == 0 \/ code == 1 \/ code == 2 \/ code == 3 \/ code == 95)%Q ->
      ~ (51 <= code /\ code <= 65)%Q -> ~ (71 <= code /\ code <= 75)%Q ->
      getWeatherCondition code = clear).
Proof.
  unfold getWeatherCondition.
  repeat split; intros; case_Q_tests.
Qed.

Lemma weather_condition_witness :
  getWeatherCondition 61 = rain /\ getWeatherCondition 45 = clear.
Proof.
  destruct (weather_condition 61) as (_ & _ & Hrain & _).
  destruct (weather_condition 45) as (_ & _ & _ & _ & _ & Hother).
  split.
  - apply Hrain. split; discriminate.
  - apply Hother; unfold Qeq, Qle; simpl; lia.
Defined.

(** ** The day key *)

Module DateFacts.
Import Date.

(** [YearFromDay d] is the year whose days include [d]. *)
Lemma DayFromYear_YearFromDay d :
  DayFromYear (YearFromDay d) <= d < DayFromYear (YearFromDay d + 1).
Proof.
  unfold YearFromDay. cbv zeta.
  destruct (d <? DayFromYear (1970 + d * 400 / 146097)) eqn:E1.
  - apply Z.ltb_lt in E1. revert E1. unfold DayFromYear.
    replace (1970 + d * 400 / 146097 - 1 + 1) with (1970 + d * 400 / 146097) by lia.
    intros E1. split; [|exact E1].
    Z.to_euclidean_division_equations. lia.
  - apply Z.ltb_ge in E1.
    destruct (DayFromYear (1970 + d * 400 / 146097 + 1) <=? d) eqn:E2.
    + apply Z.leb_le in E2. split; [exact E2|].
      revert E1 E2. unfold DayFromYear.
      Z.to_euclidean_division_equations. lia.
    + apply Z.leb_gt in E2. split; assumption.
Qed.

Lemma YearFromTime_range t :
  -62167219200000 <= t < 253402300800000 -> 0 <= YearFromTime t <= 9999.
Proof.
  intros Ht. unfold YearFromTime.
  pose proof (DayFromYear_YearFromDay (Day t)) as H.
  assert (Hd : -719528 <= Day t < 2932897).
  { unfold Day, msPerDay. Z.to_euclidean_division_equations. lia. }
  revert H. generalize (YearFromDay (Day t)). intros y.
  unfold DayFromYear. Z.to_euclidean_division_equations. lia.
Qed.

Lemma digit_range n : 48 <= digit n <= 57.
Proof. unfold digit. pose proof (Z.mod_pos_bound n 10). lia. Qed.

Lemma digit_is_digit n : (48 <=? digit n) && (digit n <=? 57) = true.
Proof. pose proof (digit_range n). lia. Qed.

Lemma digit_not_T n : digit n <> 84.
Proof. pose proof (digit_range n). lia. Qed.

Lemma isoYear_not_T y : Forall (fun c => c <> 84) (isoYear y).
Proof.
  unfold isoYear, pad4, pad6.
  destruct (_ && _); [|destruct (y <? 0)];
    cbn [app str List.map list_ascii_of_string];
    repeat constructor; try apply digit_not_T; discriminate.
Qed.

Lemma isoDate_not_T t : Forall (fun c => c <> 84) (isoDate t).
Proof.
  unfold isoDate, pad2. apply Forall_app. split; [apply isoYear_not_T|].
  cbn [app str List.map list_ascii_of_string].
  repeat constructor; try apply digit_not_T; discriminate.
Qed.

Lemma split_head_app a b sep :
  Forall (fun c => c <> sep) a -> split_head (a ++ sep :: b) sep = a.
Proof.
  induction 1 as [|c a Hc Ha IH]; simpl.
  - now rewrite Z.eqb_refl.
  - apply Z.eqb_neq in Hc. now rewrite Hc, IH.
Qed.

(** The key is the date part of the UTC rendering: the calendar date of
    the zone of offset 0, whatever the zone of the user. *)
Lemma dateKeyAt_isoDate t : dateKeyAt t = isoDate t.
Proof. unfold dateKeyAt, toISOString. apply split_head_app, isoDate_not_T. Qed.

Lemma dateKeyAt_utc t : dateKeyAt t = localDate t 0.
Proof. unfold localDate. rewrite Z.add_0_r. apply dateKeyAt_isoDate. Qed.

(** In the years 0 to 9999 the key has the shape [YYYY-MM-DD]. *)
Lemma dateKeyAt_format t :
  -62167219200000 <= t < 253402300800000 ->
  length (dateKeyAt t) = 10%nat /\ is_YYYY_MM_DD (dateKeyAt t) = true.
Proof.
  intros Ht. apply YearFromTime_range in Ht.
  rewrite dateKeyAt_isoDate. unfold isoDate, isoYear.
  replace ((0 <=? YearFromTime t) && (YearFromTime t <=? 9999)) with true by lia.
  split; [reflexivity|].
  unfold pad4, pad2.
  cbn [app str List.map list_ascii_of_string is_YYYY_MM_DD forallb].
  now rewrite !digit_is_digit.
Qed.
End DateFacts.

(** C2. At 06:30 UTC on 11 March 2024, in a zone seven hours behind UTC
    where it is still 23:30 on 10 March, [getCurrentDateKey] returns
    2024-03-11, the UTC date, and not the date 2024-03-10 of the user's
    time zone. *)
Theorem getCurrentDateKey_is_utc_date :
  now (sample_state [] ∅) = sample_time
  /\ LocalTZA (sample_state [] ∅) = sample_zone
  /\ getCurrentDateKey (sample_state [] ∅)
     = Normal (str "2024-03-11") (sample_state [] ∅)
  /\ Date.localDate sample_time sample_zone = str "2024-03-10"
  /\ Date.toISOString (sample_time + sample_zone) = str "2024-03-10T23:30:00.000Z".
Proof. repeat split; vm_compute; reflexivity. Qed.

(** ** The progress calculator *)

Lemma percentage_guard c : percentage c 0 = 0%Q.
Proof. reflexivity. Qed.




Lemma fold_count l : forall acc,
  fold_left (fun total section => total + Z.of_nat (length (tasks section))) l acc
  = acc + Z.of_nat (list_sum (List.map (fun section => length (tasks section)) l)).
Proof.
  induction l as [|x l IH]; intros acc; simpl; [lia|].
  rewrite IH. lia.
Qed.

Lemma countTasks_sum sch :
  countTasks sch =
  Z.of_nat (list_sum (List.map (fun entry => length (tasks (snd entry))) sch)).
Proof.
  unfold countTasks, Object_values. rewrite fold_count, List.map_map. lia.
Qed.

Lemma updateProgress_bar s sch bar :
  schedule s = Some sch -> progressBarFill s = Some bar ->
  progressBarFill (state_of (updateProgress s)) =
  let p := percentage (StringSet.size (completedTasks s)) (countTasks sch) in
  Some (p, bandOf p).
Proof.
  intros Hs Hb.
  destruct s as [sch0 done key coords t tza store rws bar0 text evs].
  fields_in_all. subst.
  unfold updateProgress, update, read, ret, bind. setters. fields.
  destruct text; reflexivity.
Qed.



(** ** The mock weather snapshot *)

Lemma Math_round_ge (x : Q) (n : Z) : (inject_Z n <= x)%Q -> n <= Math_round x.
Proof.
  intros H. unfold Math_round.
  rewrite <- (Qfloor_Z n). apply Qfloor_resp_le. lra.
Qed.

Lemma offset_ge_2 (r : Q) : (0 <= r)%Q -> 2 <= Math_round (r * 5 + 2).
Proof. intros H. apply Math_round_ge. change (inject_Z 2) with 2%Q. lra. Qed.

Lemma inject_Z_lt a b : a < b -> Qle_bool (inject_Z b) (inject_Z a) = false.
Proof.
  intros H. apply not_true_iff_false. rewrite Qle_bool_iff, <- Zle_Qle. lia.
Qed.

Example calculateTempPosition_table :
  (calculateTempPosition 20 10 30 == 50)%Q
  /\ (calculateTempPosition 10 10 30 == 5)%Q
  /\ (calculateTempPosition 30 10 30 == 95)%Q
  /\ (calculateTempPosition 7 10 10 == 50)%Q.
Proof. repeat split. Qed.

(** C10. Whatever [Math.random()] returns in [0, 1), the mock snapshot
    has [low <= temperature - 2] and [high >= temperature + 2], hence
    [low < high]: [calculateTempPosition] does not take its branch
    [high <= low], and the marker is at the clamped position. *)
Theorem mock_weather_range (random : nat -> Q) (locationName : jsstring) :
  (forall k, (0 <= random k /\ random k < 1)%Q) ->
  let w := getMockWeatherData random locationName in
  low w <= temperature w - 2
  /\ temperature w + 2 <= high w
  /\ low w < high w
  /\ degenerate (inject_Z (low w)) (inject_Z (high w)) = false
  /\ markerPosition w =
     Qmax 5 (Qmin 95 ((inject_Z (temperature w) - inject_Z (low w))
                      / (inject_Z (high w) - inject_Z (low w)) * 100))%Q.
Proof.
  intros Hr w.
  pose proof (offset_ge_2 (random 1%nat) (proj1 (Hr 1%nat))) as Hh.
  pose proof (offset_ge_2 (random 2%nat) (proj1 (Hr 2%nat))) as Hl.
  assert (H1 : low w <= temperature w - 2) by (subst w; simpl; lia).
  assert (H2 : temperature w + 2 <= high w) by (subst w; simpl; lia).
  assert (H3 : degenerate (inject_Z (low w)) (inject_Z (high w)) = false).
  { unfold degenerate. apply inject_Z_lt. lia. }
  repeat split; try assumption; try lia.
  unfold markerPosition, calculateTempPosition. now rewrite H3.
Qed.

Lemma mock_weather_range_witness :
  temperature (getMockWeatherData half []) = 26
  /\ low (getMockWeatherData half []) < high (getMockWeatherData half []).
Proof.
  split; [reflexivity|].
  apply (mock_weather_range half []).
  intros k. unfold half, Qle, Qlt. simpl. lia.
Defined.

(** ** The completion set *)

Module SetFacts.
Import StringSet.

Lemma has_true s x : has s x = true <-> x ∈ s.
Proof. unfold has. apply bool_decide_eq_true. Qed.

Lemma has_false s x : has s x = false <-> x ∉ s.
Proof. unfold has. apply bool_decide_eq_false. Qed.

Lemma has_add s x y : has (add s x) y = has s y || bool_decide (y = x).
Proof.
  unfold add. destruct (has s x) eqn:E.
  - destruct (bool_decide (y = x)) eqn:E'; [|now rewrite orb_false_r].
    apply bool_decide_eq_true in E'. subst. rewrite E. reflexivity.
  - unfold has. apply eq_true_iff_eq.
    rewrite orb_true_iff, !bool_decide_eq_true, elem_of_app,
      list_elem_of_singleton.
    reflexivity.
Qed.






Lemma NoDup_add s x : NoDup s -> NoDup (add s x).
Proof.
  intros H. unfold add. destruct (has s x) eqn:E; [exact H|].
  apply has_false in E. apply NoDup_app.
  repeat split; [exact H| |apply NoDup_singleton].
  intros y Hy Hy'. apply list_elem_of_singleton in Hy'. congruence.
Qed.

Lemma NoDup_delete s x : NoDup s -> NoDup (delete s x).
Proof. apply NoDup_filter. Qed.

(** A set built by [new Set] holds no element twice. *)
Lemma NoDup_of_list items : NoDup (of_list items).
Proof.
  unfold of_list.
  assert (H : forall acc, NoDup acc -> NoDup (fold_left add items acc)).
  { induction items as [|x items IH]; intros acc Hacc; simpl; [exact Hacc|].
    apply IH, NoDup_add, Hacc. }
  apply H, NoDup_nil_2.
Qed.
End SetFacts.

(** ** Toggling a task *)

(** What a call of [toggleTask] on a rendered row does to the state. *)
Lemma toggleTask_result s sch b taskId :
  schedule s = Some sch -> rows s !! taskId = Some b ->
  exists s',
    toggleTask taskId s = Normal undefined s'
    /\ completedTasks s' =
       (if StringSet.has (completedTasks s) taskId
        then StringSet.delete (completedTasks s) taskId
        else StringSet.add (completedTasks s) taskId)
    /\ localStorage s' =
       <[storageKey s := JSON_stringify (completedTasks s')]> (localStorage s)
    /\ storageKey s' = storageKey s
    /\ schedule s' = schedule s
    /\ rows s' =
       <[taskId := negb (StringSet.has (completedTasks s) taskId)]> (rows s)
    /\ events s' = events s ++
       (if StringSet.has (completedTasks s) taskId then []
        else
          let p := percentage (StringSet.size (completedTasks s')) (countTasks sch) in
          [Bounce taskId; Celebration (tierOf p) taskId]
          ++ match milestoneOf p with
             | Some kind => [MilestoneMessage kind]
             | None => []
             end).
Proof.
  intros Hs Hr.
  destruct s as [sch0 done key coords t tza store rws bar text evs].
  fields_in_all. subst sch0.
  unfold toggleTask, bind, read. fields. rewrite Hr.
  unfold celebrateTaskCompletion, saveCompletedTasks, updateProgress, setItem, log,
    update, bind, read, ret.
  setters. fields.
  destruct (StringSet.has done taskId) eqn:Hhas; fields.
  - destruct bar, text; fields; eexists; (split; [reflexivity|]); fields;
      rewrite ?app_nil_r; repeat split.
  - destruct (milestoneOf _) eqn:Hm; fields; destruct bar, text; fields;
      eexists; (split; [reflexivity|]); fields;
      rewrite ?Hm, <- ?app_assoc; repeat split.
Qed.

(** Without a row for the id, nothing is toggled: the call throws. *)
Lemma toggleTask_no_row s taskId :
  rows s !! taskId = None -> toggleTask taskId s = Throw TypeError s.
Proof. intros H. unfold toggleTask, bind, read, throw. now rewrite H. Qed.

(** The rows [createTaskItem] makes. *)
Lemma createTaskItem_rows (l : list Task) : forall s,
  exists s',
    forEach l createTaskItem s = Normal tt s'
    /\ schedule s' = schedule s
    /\ (forall taskId, is_Some (rows s !! taskId) \/ In taskId (List.map task_id l) ->
          is_Some (rows s' !! taskId)).
Proof.
  induction l as [|task l IH]; intros s.
  - exists s. repeat split. intros taskId [H|[]]. exact H.
  - cbn [forEach]. unfold bind at 1. unfold createTaskItem at 1, update.
    destruct (IH (set_rows
                    (<[task_id task :=
                         StringSet.has (completedTasks s) (task_id task)]> (rows s)) s))
      as (s' & Hrun & Hsch & Hrows).
    exists s'. split; [exact Hrun|]. split; [exact Hsch|].
    intros taskId H. apply Hrows. setters. fields.
    destruct (decide (task_id task = taskId)) as [->|Hne].
    + left. rewrite lookup_insert_eq. eauto.
    + rewrite lookup_insert_ne by exact Hne.
      destruct H as [H|[H|H]]; [now left|congruence|now right].
Qed.

Lemma forEach_sections_rows (sections : list Section) : forall s,
  exists s',
    forEach sections (fun section => forEach (tasks section) createTaskItem) s
    = Normal tt s'
    /\ schedule s' = schedule s
    /\ (forall taskId,
          is_Some (rows s !! taskId)
          \/ (exists section, In section sections
                /\ In taskId (List.map task_id (tasks section))) ->
          is_Some (rows s' !! taskId)).
Proof.
  induction sections as [|section sections IH]; intros s.
  - exists s. repeat split. intros taskId [H|(section & [] & _)]. exact H.
  - cbn [forEach]. unfold bind at 1.
    destruct (createTaskItem_rows (tasks section) s) as (s1 & Hrun1 & Hsch1 & Hrows1).
    rewrite Hrun1.
    destruct (IH s1) as (s' & Hrun & Hsch & Hrows).
    exists s'. split; [exact Hrun|]. split; [congruence|].
    intros taskId H. apply Hrows.
    destruct H as [H|(sec & [<-|Hin] & Htask)].
    + left. apply Hrows1. now left.
    + left. apply Hrows1. now right.
    + right. now exists sec.
Qed.

(** After [renderSchedule], every task of the schedule has its row. *)
Lemma renderSchedule_rows s sch :
  schedule s = Some sch ->
  exists s',
    renderSchedule s = Normal tt s'
    /\ schedule s' = Some sch
    /\ (forall section task, In section (Object_values sch) ->
          In task (tasks section) -> is_Some (rows s' !! task_id task)).
Proof.
  intros Hs. unfold renderSchedule. unfold bind at 1. unfold read at 1.
  rewrite Hs. unfold bind at 1. unfold update at 1.
  destruct (forEach_sections_rows (Object_values sch) (set_rows ∅ s))
    as (s' & Hrun & Hsch & Hrows).
  exists s'. split; [exact Hrun|]. split.
  - rewrite Hsch. setters. fields. exact Hs.
  - intros section task Hsec Htask. apply Hrows. right.
    exists section. split; [exact Hsec|]. now apply in_map.
Qed.

(** The completion set stays free of repetitions. *)
Lemma toggleTask_NoDup s taskId :
  NoDup (completedTasks s) -> NoDup (completedTasks (state_of (toggleTask taskId s))).
Proof.
  intros Hnd.
  destruct (rows s !! taskId) as [b|] eqn:Hr;
    [|rewrite toggleTask_no_row by exact Hr; exact Hnd].
  destruct (schedule s) as [sch|] eqn:Hs.
  - destruct (toggleTask_result s sch b taskId Hs Hr) as (s' & Hrun & Hset & _).
    rewrite Hrun. fields. rewrite Hset. destruct (StringSet.has (completedTasks s) taskId);
      [now apply SetFacts.NoDup_delete | now apply SetFacts.NoDup_add].
  - destruct s as [sch0 done key coords t tza store rws bar text evs].
    fields_in_all. subst sch0.
    unfold toggleTask, bind, read. fields. rewrite Hr.
    unfold celebrateTaskCompletion, saveCompletedTasks, updateProgress, setItem,
      update, throw, bind, read, ret.
    setters. fields.
    destruct (StringSet.has done taskId); fields;
      [now apply SetFacts.NoDup_delete | now apply SetFacts.NoDup_add].
Qed.







(** ** Celebrations *)



Example milestoneOf_boundaries :
  milestoneOf 49 = None /\ milestoneOf 50 = Some great /\ milestoneOf 51 = None
  /\ milestoneOf 79 = None /\ milestoneOf 80 = Some amazing
  /\ milestoneOf 81 = None /\ milestoneOf 99 = None
  /\ milestoneOf 100 = Some perfect.
Proof. repeat split. Qed.



(** ** Reading JSON *)

Module JSONFacts.
Import JSON.
Local Open Scope nat_scope.

Lemma skip_ws_length s : length (skip_ws s) <= length s.
Proof.
  induction s as [|c s IH]; simpl; [lia|].
  destruct (is_ws c); simpl; lia.
Qed.

Lemma startsWith_length s p :
  startsWith s p = true -> length (skipn (length p) s) + length p = length s.
Proof.
  revert p. induction s as [|d s IH]; intros [|c p] H; simpl in *;
    try lia; try discriminate.
  apply andb_true_iff in H as [_ H]. specialize (IH p H). lia.
Qed.

Lemma digits_length s : forall acc n v k r,
  digits s acc n = (v, k, r) -> length r <= length s.
Proof.
  induction s as [|c s IH]; intros acc n v k r H; simpl in *.
  - injection H as _ _ <-. simpl. lia.
  - destruct (is_digit c).
    + apply IH in H. lia.
    + injection H as _ _ <-. simpl. lia.
Qed.

Lemma chars_length s : forall cs r,
  chars s = Some (cs, r) -> length r < length s.
Proof.
  remember (length s) as n eqn:Hn. revert s Hn.
  induction n as [n IH'] using lt_wf_ind. intros s -> cs r H.
  assert (IH : forall s', length s' < length s -> forall cs r,
               chars s' = Some (cs, r) -> length r < length s')
    by (intros s' Hlt; now apply (IH' (length s'))).
  clear IH'. destruct s as [|c s]; [discriminate|].
  cbn [chars] in H.
  destruct (Z.eqb c 34); [injection H as _ <-; simpl; lia|].
  destruct (Z.eqb c 92).
  - destruct s as [|e s]; [discriminate|].
    destruct (Z.eqb e 117).
    + destruct s as [|a [|b [|c' [|d s]]]]; try discriminate.
      destruct (hex4 a b c' d); [|discriminate].
      destruct (chars s) as [[cs' r']|] eqn:E; [|discriminate].
      injection H as _ <-. apply IH in E; simpl in *; lia.
    + destruct (escape e); [|discriminate].
      destruct (chars s) as [[cs' r']|] eqn:E; [|discriminate].
      injection H as _ <-. apply IH in E; simpl in *; lia.
  - destruct (Z.ltb c 32); [discriminate|].
    destruct (chars s) as [[cs' r']|] eqn:E; [|discriminate].
    injection H as _ <-. apply IH in E; simpl in *; lia.
Qed.

Lemma skipn_1_length (s : list Z) : length (skipn 1 s) <= length s.
Proof. rewrite length_skipn. lia. Qed.

Lemma int_part_length s v r : int_part s = Some (v, r) -> length r < length s.
Proof.
  unfold int_part. destruct s as [|c s]; [discriminate|].
  destruct (Z.eqb c 48); [intros H; injection H as _ <-; simpl; lia|].
  destruct (is_digit c) eqn:E; [|discriminate].
  destruct (digits (c :: s) 0 0) as [[v' k] r'] eqn:D.
  intros H. injection H as _ <-.
  simpl in D. rewrite E in D. apply digits_length in D. simpl. lia.
Qed.

Lemma frac_part_length m s v n r :
  frac_part m s = Some (v, n, r) -> length r <= length s.
Proof.
  unfold frac_part. destruct (startsWith s (str ".")).
  - destruct (digits (skipn 1 s) m 0) as [[v' k] r'] eqn:D.
    destruct (Z.eqb k 0); [discriminate|].
    intros H. injection H as _ _ <-.
    apply digits_length in D. pose proof (skipn_1_length s). lia.
  - intros H. injection H as _ _ <-. lia.
Qed.

Lemma exp_part_length s e r : exp_part s = Some (e, r) -> length r <= length s.
Proof.
  unfold exp_part. destruct (_ || _).
  - pose proof (skipn_1_length s).
    pose proof (skipn_1_length (skipn 1 s)).
    destruct (startsWith (skipn 1 s) (str "+"));
      [|destruct (startsWith (skipn 1 s) (str "-"))];
      match goal with
      | |- context [digits ?x 0%Z 0%Z] =>
          destruct (digits x 0%Z 0%Z) as [[v' k] r'] eqn:D
      end;
      (destruct (Z.eqb k 0); [discriminate|]);
      intros H'; injection H' as _ <-; apply digits_length in D; lia.
  - intros H. injection H as _ <-. lia.
Qed.

Lemma number_length s v r : number s = Some (v, r) -> length r < length s.
Proof.
  unfold number.
  pose proof (skipn_1_length s) as Hs.
  destruct (startsWith s (str "-"));
    match goal with
    | |- context [int_part ?x] =>
        destruct (int_part x) as [[i r1]|] eqn:I; [|discriminate]
    end;
    (destruct (frac_part i r1) as [[[m n] r2]|] eqn:F; [|discriminate]);
    (destruct (exp_part r2) as [[e r3]|] eqn:E; [|discriminate]);
    intros H; injection H as _ <-;
    apply int_part_length in I; apply frac_part_length in F;
    apply exp_part_length in E; lia.
Qed.

(** Length facts about the tests and the white space in the context. *)
Ltac prefix_facts :=
  repeat match goal with
  | H : startsWith ?s ?p = true |- _ =>
      apply startsWith_length in H;
      let n := eval vm_compute in (length p) in
      change (length p) with n in H
  end;
  repeat match goal with
  | |- context [skip_ws ?s] =>
      lazymatch goal with
      | _ : length (skip_ws s) <= length s |- _ => fail
      | _ => pose proof (skip_ws_length s)
      end
  | _ : context [skip_ws ?s] |- _ =>
      lazymatch goal with
      | _ : length (skip_ws s) <= length s |- _ => fail
      | _ => pose proof (skip_ws_length s)
      end
  end.

Lemma reading_progress fuel :
  (forall s v r, value fuel s = Read v r -> length r < length s)
  /\ (forall s acc v r, elements fuel s acc = Read v r -> length r < length s)
  /\ (forall s acc v r, members fuel s acc = Read v r -> length r < length s).
Proof.
  induction fuel as [|fuel (IHv & IHe & IHm)];
    [repeat split; intros; discriminate|].
  repeat split.
  - intros s v r. cbn [value].
    destruct (startsWith (skip_ws s) (str "null")) eqn:E1;
      [intros H; injection H as _ <-; prefix_facts; lia|].
    destruct (startsWith (skip_ws s) (str "true")) eqn:E2;
      [intros H; injection H as _ <-; prefix_facts; lia|].
    destruct (startsWith (skip_ws s) (str "false")) eqn:E3;
      [intros H; injection H as _ <-; prefix_facts; lia|].
    destruct (startsWith (skip_ws s) [34%Z]) eqn:E4.
    { destruct (chars _) as [[cs r']|] eqn:C; [|discriminate].
      intros H; injection H as _ <-. apply chars_length in C.
      prefix_facts. lia. }
    destruct (startsWith (skip_ws s) (str "[")) eqn:E5.
    { destruct (startsWith _ (str "]")) eqn:E6.
      - intros H; injection H as _ <-. prefix_facts. lia.
      - intros H. apply IHe in H. prefix_facts. lia. }
    destruct (startsWith (skip_ws s) (str "{")) eqn:E7.
    { destruct (startsWith _ (str "}")) eqn:E8.
      - intros H; injection H as _ <-. prefix_facts. lia.
      - intros H. apply IHm in H. prefix_facts. lia. }
    destruct (number _) as [[v' r']|] eqn:N; [|discriminate].
    intros H; injection H as _ <-. apply number_length in N.
    prefix_facts. lia.
  - intros s acc v r. cbn [elements].
    destruct (value fuel s) as [v' r'| |] eqn:V; try discriminate.
    apply IHv in V.
    destruct (startsWith (skip_ws r') (str ",")) eqn:E1.
    { intros H. apply IHe in H. prefix_facts. lia. }
    destruct (startsWith (skip_ws r') (str "]")) eqn:E2; [|discriminate].
    intros H; injection H as _ <-. prefix_facts. lia.
  - intros s acc v r. cbn [members].
    destruct (startsWith (skip_ws s) [34%Z]) eqn:E1; [|discriminate].
    destruct (chars _) as [[k r1]|] eqn:C; [|discriminate].
    apply chars_length in C.
    destruct (startsWith (skip_ws r1) (str ":")) eqn:E2; [|discriminate].
    destruct (value fuel _) as [v' r2| |] eqn:V; try discriminate.
    apply IHv in V.
    destruct (startsWith (skip_ws r2) (str ",")) eqn:E3.
    { intros H. apply IHm in H. prefix_facts. lia. }
    destruct (startsWith (skip_ws r2) (str "}")) eqn:E4; [|discriminate].
    intros H; injection H as _ <-. prefix_facts. lia.
Qed.

(** With twice the length of the text, the fuel does not run out. *)
Lemma reading_fuel fuel :
  (forall s, 2 * length s < fuel -> value fuel s <> OutOfFuel)
  /\ (forall s acc, 2 * length s + 1 < fuel -> elements fuel s acc <> OutOfFuel)
  /\ (forall s acc, 2 * length s + 1 < fuel -> members fuel s acc <> OutOfFuel).
Proof.
  induction fuel as [|fuel (IHv & IHe & IHm)]; [repeat split; intros; lia|].
  destruct (reading_progress fuel) as (Pv & _ & _).
  repeat split.
  - intros s Hf. cbn [value].
    destruct (startsWith (skip_ws s) (str "null")); [discriminate|].
    destruct (startsWith (skip_ws s) (str "true")); [discriminate|].
    destruct (startsWith (skip_ws s) (str "false")); [discriminate|].
    destruct (startsWith (skip_ws s) [34%Z]);
      [destruct (chars _) as [[cs r']|]; discriminate|].
    destruct (startsWith (skip_ws s) (str "[")) eqn:E5.
    { destruct (startsWith _ (str "]")); [discriminate|].
      apply IHe. prefix_facts. lia. }
    destruct (startsWith (skip_ws s) (str "{")) eqn:E7.
    { destruct (startsWith _ (str "}")); [discriminate|].
      apply IHm. prefix_facts. lia. }
    destruct (number _) as [[v' r']|]; discriminate.
  - intros s acc Hf. cbn [elements].
    destruct (value fuel s) as [v' r'| |] eqn:V; [|discriminate|].
    + apply Pv in V.
      destruct (startsWith (skip_ws r') (str ",")) eqn:E1.
      { apply IHe. prefix_facts. lia. }
      destruct (startsWith (skip_ws r') (str "]")); discriminate.
    + exfalso. revert V. apply IHv. lia.
  - intros s acc Hf. cbn [members].
    destruct (startsWith (skip_ws s) [34%Z]) eqn:E1; [|discriminate].
    destruct (chars _) as [[k r1]|] eqn:C; [|discriminate].
    apply chars_length in C.
    destruct (startsWith (skip_ws r1) (str ":")) eqn:E2; [|discriminate].
    destruct (value fuel _) as [v' r2| |] eqn:V; [|discriminate|].
    + apply Pv in V.
      destruct (startsWith (skip_ws r2) (str ",")) eqn:E3.
      { apply IHm. prefix_facts. lia. }
      destruct (startsWith (skip_ws r2) (str "}")); discriminate.
    + exfalso. revert V. apply IHv. prefix_facts. lia.
Qed.

Lemma value_fuel text : value (2 * length text + 1) text <> OutOfFuel.
Proof. apply reading_fuel. lia. Qed.

(** [parse] gives [None] exactly on a syntax error: a value that is
    malformed, or followed by more than white space. *)
Lemma parse_None text :
  parse text = None <->
  value (2 * length text + 1) text = Bad
  \/ exists v r, value (2 * length text + 1) text = Read v r /\ skip_ws r <> [].
Proof.
  unfold parse. pose proof (value_fuel text) as Hf.
  destruct (value _ text) as [v r| |]; [| |congruence].
  - destruct (skip_ws r) eqn:E.
    + split; [discriminate|]. intros [H|(v' & r' & H & Hr)]; [discriminate|].
      injection H as _ <-. congruence.
    + split; [|reflexivity]. intros _. right. exists v, r. split; congruence.
  - split; [now left|reflexivity].
Qed.

End JSONFacts.

Example parse_samples :
  JSON.parse (JSON_stringify [str "wake"; str "read"])
  = Some (JArray [JString (str "wake"); JString (str "read")])
  /\ JSON.parse (str "[1, 2.50e-3, null, true]")
     = Some (JArray [JNumber 1 0; JNumber 250 (-5); JNull; JBool true])
  /\ JSON.parse (str "[wake") = None
  /\ JSON.parse (str "{latitude:39.7}") = None
  /\ JSON.parse (str "[1,]") = None
  /\ JSON.parse (str "01") = None.
Proof.
  split; [vm_compute; reflexivity|].
  split; [vm_compute; reflexivity|].
  repeat split.
Qed.

(** ** Loading persisted state *)




(** ** The day rollover *)

Lemma forEach_remove (keys : list jsstring) : forall s,
  exists s',
    forEach keys (fun key =>
      today <- getCurrentDateKey ;;
      if stale today key then removeItem key else ret tt) s = Normal tt s'
    /\ s' = set_localStorage (localStorage s') s
    /\ forall key, localStorage s' !! key =
         if bool_decide (key ∈ keys) && stale (dateKeyAt (now s)) key then None
         else localStorage s !! key.
Proof.
  induction keys as [|k keys IH]; intros s.
  - exists s. split; [reflexivity|]. split; [now destruct s|].
    intros key. reflexivity.
  - cbn [forEach]. unfold bind at 1. unfold bind at 1.
    unfold getCurrentDateKey at 1. unfold read at 1.
    destruct (stale (dateKeyAt (now s)) k) eqn:Ek.
    + unfold removeItem, update.
      destruct (IH (set_localStorage (delete k (localStorage s)) s))
        as (s' & Hrun & Hframe & Hlook).
      exists s'. split; [exact Hrun|]. split.
      { rewrite Hframe. now destruct s. }
      intros key. rewrite Hlook. setters. fields.
      destruct (decide (key = k)) as [->|Hne].
      * rewrite Ek, lookup_delete_eq.
        rewrite (bool_decide_eq_true_2 (k ∈ k :: keys)) by apply list_elem_of_here.
        simpl. now destruct (bool_decide (k ∈ keys)).
      * rewrite lookup_delete_ne by congruence.
        rewrite (bool_decide_ext (key ∈ k :: keys) (key ∈ keys)); [reflexivity|].
        rewrite elem_of_cons. tauto.
    + unfold ret.
      destruct (IH s) as (s' & Hrun & Hframe & Hlook).
      exists s'. split; [exact Hrun|]. split; [exact Hframe|].
      intros key. rewrite Hlook.
      destruct (decide (key = k)) as [->|Hne].
      * rewrite Ek, !andb_false_r. reflexivity.
      * rewrite (bool_decide_ext (key ∈ k :: keys) (key ∈ keys)); [reflexivity|].
        rewrite elem_of_cons. tauto.
Qed.

(** [resetLocationToDefault] touches the storage and the coordinate only,
    and the storage by removing the stale keys. *)
Lemma resetLocationToDefault_result s :
  exists s',
    resetLocationToDefault s = Normal tt s'
    /\ s' = set_currentCoordinates defaultCoordinates
              (set_localStorage (localStorage s') s)
    /\ forall key, localStorage s' !! key =
         if stale (dateKeyAt (now s)) key then None else localStorage s !! key.
Proof.
  unfold resetLocationToDefault, storage_keys.
  unfold bind at 1. unfold read at 1. unfold bind at 1.
  destruct (forEach_remove (List.map fst (map_to_list (localStorage s))) s)
    as (s1 & Hrun & Hframe & Hlook).
  rewrite Hrun. unfold update.
  eexists. split; [reflexivity|]. split.
  - rewrite Hframe. setters. fields. reflexivity.
  - intros key. setters. fields. rewrite Hlook.
    destruct (stale _ key); [|now rewrite andb_false_r].
    rewrite andb_true_r.
    destruct (bool_decide _) eqn:E; [reflexivity|].
    apply bool_decide_eq_false in E.
    destruct (localStorage s !! key) as [v|] eqn:Hv; [|reflexivity].
    exfalso. apply E. apply list_elem_of_fmap. exists (key, v).
    split; [reflexivity|]. now apply elem_of_map_to_list.
Qed.

(** A new session works under the key of the day it starts on. *)
Lemma constructor_storageKey s :
  storageKey (state_of (constructor s)) = str "dailyTracker_" ++ dateKeyAt (now s).
Proof.
  unfold constructor, getStoredCoordinates, getCurrentDateKey, getItem, read,
    update, ret, bind.
  fields.
  destruct (localStorage s !! _) as [[|c stored]|]; try reflexivity.
  unfold JSON_parse. destruct (JSON.parse _); reflexivity.
Qed.




(** ** The stored record, written and read back *)

Module RoundTrip.
Import JSON Quote.

(** What [chars] does with the character it has read. *)
#[local] Abbreviation consed c r :=
  (match r with Some (cs, s') => Some (c :: cs, s') | None => None end).

Lemma chars_plain c s :
  c <> 34 -> c <> 92 -> 32 <= c -> chars (c :: s) = consed c (chars s).
Proof.
  intros H1 H2 H3. cbn [chars].
  apply Z.eqb_neq in H1, H2. rewrite H1, H2.
  replace (c <? 32) with false by lia. reflexivity.
Qed.

Lemma chars_escape e u s :
  e <> 117 -> escape e = Some u -> chars (92 :: e :: s) = consed u (chars s).
Proof.
  intros H1 H2. cbn [chars].
  change (92 =? 34) with false. change (92 =? 92) with true. cbn iota.
  apply Z.eqb_neq in H1. rewrite H1, H2. reflexivity.
Qed.

Lemma chars_unicode a b c d u s :
  hex4 a b c d = Some u ->
  chars (92 :: 117 :: a :: b :: c :: d :: s) = consed u (chars s).
Proof.
  intros H. cbn [chars].
  change (92 =? 34) with false. change (92 =? 92) with true.
  change (117 =? 117) with true. cbn iota.
  rewrite H. reflexivity.
Qed.

Lemma hex_hexdigit n : 0 <= n < 16 -> hex (hexdigit n) = Some n.
Proof.
  intros H. unfold hex, hexdigit, is_digit.
  destruct (n <? 10) eqn:E.
  - replace ((48 <=? 48 + n) && (48 + n <=? 57)) with true by lia.
    f_equal. lia.
  - replace ((48 <=? 87 + n) && (87 + n <=? 57)) with false by lia.
    replace ((97 <=? 87 + n) && (87 + n <=? 102)) with true by lia.
    f_equal. lia.
Qed.

Lemma chars_unicode_escape c s :
  code_unit c -> chars (unicode_escape c ++ s) = consed c (chars s).
Proof.
  intros Hc. unfold unicode_escape. cbn [app].
  apply chars_unicode. unfold hex4.
  rewrite !hex_hexdigit by (apply Z.mod_pos_bound; lia).
  f_equal. unfold code_unit in Hc.
  Z.to_euclidean_division_equations. lia.
Qed.

Lemma chars_quote_unit c s :
  code_unit c -> chars (quote_unit c ++ s) = consed c (chars s).
Proof.
  intros Hc. unfold quote_unit.
  destruct (c =? 8) eqn:E8; [apply Z.eqb_eq in E8; subst; now apply chars_escape|].
  destruct (c =? 9) eqn:E9; [apply Z.eqb_eq in E9; subst; now apply chars_escape|].
  destruct (c =? 10) eqn:E10; [apply Z.eqb_eq in E10; subst; now apply chars_escape|].
  destruct (c =? 12) eqn:E12; [apply Z.eqb_eq in E12; subst; now apply chars_escape|].
  destruct (c =? 13) eqn:E13; [apply Z.eqb_eq in E13; subst; now apply chars_escape|].
  destruct (c =? 34) eqn:E34; [apply Z.eqb_eq in E34; subst; now apply chars_escape|].
  destruct (c =? 92) eqn:E92; [apply Z.eqb_eq in E92; subst; now apply chars_escape|].
  destruct ((c <? 32) || is_lead c || is_trail c) eqn:E.
  - now apply chars_unicode_escape.
  - cbn [app]. apply chars_plain; lia.
Qed.

Lemma quote_chars_step c d s :
  quote_chars (c :: d :: s) =
  if is_lead c && is_trail d then c :: d :: quote_chars s
  else quote_unit c ++ quote_chars (d :: s).
Proof. reflexivity. Qed.

Lemma chars_quote_chars s : forall rest,
  Forall code_unit s -> chars (quote_chars s ++ 34 :: rest) = Some (s, rest).
Proof.
  remember (length s) as n eqn:Hn. revert s Hn.
  induction n as [n IH] using lt_wf_ind. intros s -> rest Hs.
  destruct s as [|c [|d s]].
  - reflexivity.
  - cbn [quote_chars]. apply Forall_cons in Hs as [Hc _].
    rewrite chars_quote_unit by exact Hc. reflexivity.
  - apply Forall_cons in Hs as [Hc Hs].
    rewrite quote_chars_step. destruct (is_lead c && is_trail d) eqn:E.
    + apply Forall_cons in Hs as [Hd Hs].
      unfold is_lead, is_trail in E. cbn [app].
      rewrite chars_plain by lia. rewrite chars_plain by lia.
      rewrite (IH (length s) ltac:(simpl; lia) s eq_refl rest Hs).
      reflexivity.
    + rewrite <- app_assoc, chars_quote_unit by exact Hc.
      rewrite (IH (length (d :: s)) ltac:(simpl; lia) (d :: s) eq_refl rest Hs).
      reflexivity.
Qed.

(** A value that starts with a quote is a string. *)
Lemma value_string fuel body :
  value (S fuel) (34 :: body) =
  match chars body with
  | Some (cs, r) => Read (JString cs) r
  | None => Bad
  end.
Proof. destruct body; reflexivity. Qed.

(** A quoted string is read back, whatever follows it. *)
Lemma value_quoted fuel x rest :
  Forall code_unit x ->
  value (S fuel) (QuoteJSONString x ++ rest) = Read (JString x) rest.
Proof.
  intros Hx. unfold QuoteJSONString. rewrite <- !app_assoc. cbn [app].
  now rewrite value_string, chars_quote_chars.
Qed.

Lemma elements_step fuel s acc :
  elements (S fuel) s acc =
  match value fuel s with
  | Read v r =>
      if startsWith (skip_ws r) (str ",")
      then elements fuel (skipn 1 (skip_ws r)) (v :: acc)
      else if startsWith (skip_ws r) (str "]")
           then Read (JArray (rev (v :: acc))) (skipn 1 (skip_ws r))
           else Bad
  | other => other
  end.
Proof. reflexivity. Qed.

Lemma elements_comma fuel x t acc :
  Forall code_unit x ->
  elements (S (S fuel)) (QuoteJSONString x ++ 44 :: t) acc
  = elements (S fuel) t (JString x :: acc).
Proof.
  intros Hx. rewrite elements_step, value_quoted by exact Hx.
  destruct t; reflexivity.
Qed.

Lemma elements_close fuel x acc :
  Forall code_unit x ->
  elements (S (S fuel)) (QuoteJSONString x ++ [93]) acc
  = Read (JArray (rev (JString x :: acc))) [].
Proof.
  intros Hx. rewrite elements_step, value_quoted by exact Hx. reflexivity.
Qed.

(** The elements of a serialised array are read back in order. *)
Lemma elements_stringified l : forall fuel acc x,
  Forall (Forall code_unit) (x :: l) -> (length l < fuel)%nat ->
  elements (S fuel)
    (join (str ",") (List.map QuoteJSONString (x :: l)) ++ str "]") acc
  = Read (JArray (rev acc ++ List.map JString (x :: l))) [].
Proof.
  induction l as [|y l IH]; intros fuel acc x Hx Hf;
    apply Forall_cons in Hx as [Hx Hl];
    (destruct fuel as [|fuel]; [simpl in Hf; lia|]).
  - apply (elements_close fuel x acc Hx).
  - replace (join (str ",") (List.map QuoteJSONString (x :: y :: l)) ++ str "]")
      with (QuoteJSONString x
              ++ 44 :: (join (str ",") (List.map QuoteJSONString (y :: l))
                          ++ str "]"))
      by (cbn [List.map join]; rewrite <- !app_assoc; reflexivity).
    rewrite elements_comma by exact Hx.
    rewrite IH by (try exact Hl; simpl in Hf; lia).
    cbn [rev List.map]. now rewrite <- app_assoc.
Qed.

Lemma length_stringified a :
  (length a <= length (join (str ",") (List.map QuoteJSONString a)))%nat.
Proof.
  induction a as [|x [|y a] IH]; [simpl; lia|simpl; lia|].
  change (join (str ",") (List.map QuoteJSONString (x :: y :: a)))
    with (QuoteJSONString x ++ str ","
            ++ join (str ",") (List.map QuoteJSONString (y :: a))).
  rewrite !length_app. simpl in IH |- *. lia.
Qed.

(** [JSON.parse(JSON.stringify(a))] is an array of the strings of [a]. *)
Lemma parse_stringify a :
  Forall (Forall code_unit) a ->
  parse (JSON_stringify a) = Some (JArray (List.map JString a)).
Proof.
  intros Ha. unfold parse, JSON_stringify.
  destruct a as [|x a]; [reflexivity|].
  set (body := join (str ",") (List.map QuoteJSONString (x :: a))).
  assert (Hlen : (length (x :: a) <= length body)%nat) by apply length_stringified.
  replace (2 * length (str "[" ++ body ++ str "]") + 1)%nat
    with (S (S (S (length body + length body + 2))))%nat
    by (rewrite !length_app; simpl; lia).
  assert (Hq : exists c t, body ++ str "]" = 34 :: t /\ c = 34).
  { subst body. destruct a; cbn [List.map join]; unfold QuoteJSONString;
      rewrite <- ?app_assoc; cbn [app]; eauto. }
  destruct Hq as (c & t & Hq & _).
  assert (Hv : value (S (S (S (length body + length body + 2))))
                 (str "[" ++ body ++ str "]")
               = elements (S (S (length body + length body + 2)))
                   (body ++ str "]") []).
  { change (str "[" ++ body ++ str "]") with (91 :: (body ++ str "]")).
    rewrite Hq. reflexivity. }
  rewrite Hv. subst body.
  rewrite elements_stringified by (try exact Ha; simpl in *; lia).
  reflexivity.
Qed.
End RoundTrip.

Lemma strings_of_strings l : strings_of (List.map JString l) = Some l.
Proof. induction l as [|x l IH]; [reflexivity|]. simpl. now rewrite IH. Qed.

Lemma fold_add_fresh l : forall acc,
  NoDup (acc ++ l) -> fold_left StringSet.add l acc = acc ++ l.
Proof.
  induction l as [|x l IH]; intros acc H; simpl; [now rewrite app_nil_r|].
  assert (Hx : x ∉ acc).
  { apply NoDup_app in H as (_ & H & _). intros Hin. apply (H x Hin), list_elem_of_here. }
  unfold StringSet.add at 2. rewrite (proj2 (SetFacts.has_false acc x) Hx).
  rewrite IH; rewrite <- app_assoc; [reflexivity|exact H].
Qed.

Lemma of_list_NoDup l : NoDup l -> StringSet.of_list l = l.
Proof. intros H. apply (fold_add_fresh l []), H. Qed.

(** X1. Saving and loading restore the completion set: for a completion
    set without duplicates whose ids are strings of UTF-16 code units,
    [saveCompletedTasks] ends normally and leaves the set in memory, and a
    [loadCompletedTasks] on the storage it has written, whatever the set
    in memory has become in between, ends normally with the saved set, in
    the saved order. *)
Theorem save_then_load (s : State) :
  NoDup (completedTasks s) -> Forall (Forall code_unit) (completedTasks s) ->
  exists s1,
    saveCompletedTasks s = Normal tt s1
    /\ completedTasks s1 = completedTasks s
    /\ forall forgotten,
         loadCompletedTasks (set_completedTasks forgotten s1) = Some (Normal tt s1).
Proof.
  intros Hnd Hcu.
  destruct s as [sch done key coords t tza store rws bar text evs].
  fields_in_all.
  eexists. split; [reflexivity|]. split; [reflexivity|].
  intros forgotten. unfold loadCompletedTasks. setters. fields.
  rewrite lookup_insert_eq.
  change (JSON_stringify done)
    with (91 :: (join (str ",") (List.map Quote.QuoteJSONString done) ++ str "]")).
  change (91 :: (join (str ",") (List.map Quote.QuoteJSONString done) ++ str "]"))
    with (JSON_stringify done).
  rewrite RoundTrip.parse_stringify by exact Hcu.
  cbn [iterate]. rewrite strings_of_strings, of_list_NoDup by exact Hnd.
  reflexivity.
Qed.

Lemma save_then_load_witness :
  exists s1,
    saveCompletedTasks (sample_state [str "wake"; str "read"] ∅) = Normal tt s1
    /\ loadCompletedTasks (set_completedTasks [] s1) = Some (Normal tt s1).
Proof.
  destruct (save_then_load (sample_state [str "wake"; str "read"] ∅))
    as (s1 & Hrun & _ & Hload).
  - apply (bool_decide_unpack _). vm_compute. exact I.
  - repeat constructor; vm_compute; discriminate.
  - exists s1. split; [exact Hrun|]. apply Hload.
Defined.

(** ** The rows of the page *)

Lemma createTaskItem_lookup (l : list Task) : forall s,
  exists s',
    forEach l createTaskItem s = Normal tt s'
    /\ s' = set_rows (rows s') s
    /\ forall taskId,
         rows s' !! taskId =
         if bool_decide (taskId ∈ List.map task_id l)
         then Some (StringSet.has (completedTasks s) taskId)
         else rows s !! taskId.
Proof.
  induction l as [|task l IH]; intros s.
  - exists s. split; [reflexivity|]. split; [now destruct s|]. reflexivity.
  - cbn [forEach]. unfold bind at 1. unfold createTaskItem at 1, update.
    destruct (IH (set_rows
                    (<[task_id task :=
                         StringSet.has (completedTasks s) (task_id task)]> (rows s)) s))
      as (s' & Hrun & Hframe & Hrows).
    exists s'. split; [exact Hrun|]. split.
    { rewrite Hframe. now destruct s. }
    intros taskId. rewrite Hrows. setters. fields. cbn [List.map].
    destruct (decide (taskId ∈ List.map task_id l)) as [Hin|Hin].
    + rewrite !bool_decide_eq_true_2; [reflexivity| |exact Hin].
      now apply list_elem_of_further.
    + rewrite (bool_decide_eq_false_2 _ Hin).
      destruct (decide (taskId = task_id task)) as [->|Hne].
      * rewrite lookup_insert_eq, bool_decide_eq_true_2; [reflexivity|].
        apply list_elem_of_here.
      * rewrite lookup_insert_ne by congruence.
        rewrite bool_decide_eq_false_2; [reflexivity|].
        rewrite elem_of_cons. tauto.
Qed.

Lemma sections_lookup (sections : list Section) : forall s,
  exists s',
    forEach sections (fun section => forEach (tasks section) createTaskItem) s
    = Normal tt s'
    /\ s' = set_rows (rows s') s
    /\ forall taskId,
         rows s' !! taskId =
         if bool_decide
              (taskId ∈ concat (List.map (fun section =>
                                            List.map task_id (tasks section))
                                  sections))
         then Some (StringSet.has (completedTasks s) taskId)
         else rows s !! taskId.
Proof.
  induction sections as [|section sections IH]; intros s.
  - exists s. split; [reflexivity|]. split; [now destruct s|]. reflexivity.
  - cbn [forEach]. unfold bind at 1.
    destruct (createTaskItem_lookup (tasks section) s) as (s1 & Hrun1 & Hframe1 & Hrows1).
    rewrite Hrun1.
    destruct (IH s1) as (s' & Hrun & Hframe & Hrows).
    exists s'. split; [exact Hrun|]. split.
    { rewrite Hframe, Hframe1. now destruct s. }
    intros taskId. rewrite Hrows, Hrows1.
    assert (Hdone : completedTasks s1 = completedTasks s)
      by (rewrite Hframe1; now destruct s).
    rewrite Hdone. cbn [List.map concat].
    destruct (decide (taskId ∈ concat (List.map (fun section =>
                                            List.map task_id (tasks section))
                                  sections))) as [Hin|Hin].
    + rewrite !bool_decide_eq_true_2; [reflexivity| |exact Hin].
      rewrite elem_of_app. now right.
    + rewrite (bool_decide_eq_false_2 _ Hin).
      rewrite (bool_decide_ext (taskId ∈ List.map task_id (tasks section) ++ _)
                 (taskId ∈ List.map task_id (tasks section)));
        [reflexivity|].
      rewrite elem_of_app. tauto.
Qed.

Lemma renderSchedule_lookup s sch :
  schedule s = Some sch ->
  exists s',
    renderSchedule s = Normal tt s'
    /\ s' = set_rows (rows s') s
    /\ rows_show sch s'.
Proof.
  intros Hs. unfold renderSchedule. unfold bind at 1. unfold read at 1.
  rewrite Hs. unfold bind at 1. unfold update at 1.
  destruct (sections_lookup (Object_values sch) (set_rows ∅ s))
    as (s' & Hrun & Hframe & Hrows).
  exists s'. split; [exact Hrun|]. split.
  { rewrite Hframe. now destruct s. }
  intros taskId. rewrite Hrows.
  assert (Hdone : completedTasks s' = completedTasks s)
    by (rewrite Hframe; now destruct s).
  rewrite Hdone. unfold task_ids. setters. fields.
  now rewrite lookup_empty.
Qed.

Lemma rows_show_unique sch s s' :
  rows_show sch s -> rows_show sch s' -> completedTasks s' = completedTasks s ->
  rows s' = rows s.
Proof.
  intros H H' Hdone. apply map_eq. intros taskId.
  now rewrite H, H', Hdone.
Qed.

(** X2. On a page that has a schedule, [renderSchedule] ends normally,
    changes nothing but the rows, and leaves one row for each task of the
    schedule and no other row, each checked exactly when its task is in
    the completion set; rendering a second time changes nothing. *)
Theorem renderSchedule_rows_show (s : State) (sch : Schedule) :
  schedule s = Some sch ->
  exists s',
    renderSchedule s = Normal tt s'
    /\ s' = set_rows (rows s') s
    /\ rows_show sch s'
    /\ renderSchedule s' = Normal tt s'.
Proof.
  intros Hs.
  destruct (renderSchedule_lookup s sch Hs) as (s' & Hrun & Hframe & Hshow).
  exists s'. split; [exact Hrun|]. split; [exact Hframe|]. split; [exact Hshow|].
  assert (Hs' : schedule s' = Some sch) by (rewrite Hframe; now destruct s).
  destruct (renderSchedule_lookup s' sch Hs') as (s2 & Hrun2 & Hframe2 & Hshow2).
  rewrite Hrun2. f_equal. rewrite Hframe2.
  assert (Hdone : completedTasks s2 = completedTasks s')
    by (rewrite Hframe2; now destruct s').
  rewrite (rows_show_unique sch s' s2 Hshow Hshow2 Hdone).
  now destruct s'.
Qed.

Lemma renderSchedule_rows_show_witness :
  exists s',
    renderSchedule (sample_state [str "wake"] ∅) = Normal tt s'
    /\ rows_show sample_schedule s'.
Proof.
  destruct (renderSchedule_rows_show (sample_state [str "wake"] ∅) sample_schedule)
    as (s' & Hrun & _ & Hshow & _).
  - reflexivity.
  - exists s'. split; [exact Hrun|exact Hshow].
Defined.









(** ** The progress bar, within its bounds *)

Lemma countTasks_length sch : countTasks sch = Z.of_nat (length (task_ids sch)).
Proof.
  rewrite countTasks_sum. unfold task_ids, Object_values.
  rewrite length_concat, !List.map_map. do 2 f_equal.
  apply List.map_ext. intros entry. now rewrite length_map.
Qed.

Lemma percentage_ratio c t :
  0 <= c <= t -> (0 <= percentage c t /\ percentage c t <= 100)%Q.
Proof.
  intros H. unfold percentage. destruct (0 <? t) eqn:E; [|split; discriminate].
  apply Z.ltb_lt in E.
  assert (Ht : (0 < inject_Z t)%Q) by (rewrite <- (Zlt_Qlt 0); exact E).
  assert (H0 : (0 <= inject_Z c / inject_Z t)%Q).
  { apply Qle_shift_div_l; [exact Ht|]. rewrite Qmult_0_l, <- (Zle_Qle 0). lia. }
  assert (H1 : (inject_Z c / inject_Z t <= 1)%Q).
  { apply Qle_shift_div_r; [exact Ht|]. rewrite Qmult_1_l, <- Zle_Qle. lia. }
  split; lra.
Qed.

Lemma percentage_full c t :
  (percentage c t == 100)%Q <-> c = t /\ 0 < t.
Proof.
  unfold percentage. destruct (0 <? t) eqn:E.
  - apply Z.ltb_lt in E.
    assert (Ht : ~ (inject_Z t == 0)%Q).
    { intros H. apply (inject_Z_injective t 0) in H. lia. }
    split.
    + intros H. split; [|exact E].
      apply inject_Z_injective.
      assert (H' : (inject_Z c / inject_Z t == 1)%Q) by lra.
      rewrite <- (Qmult_div_r (inject_Z c) (inject_Z t)) by exact Ht.
      rewrite H'. ring.
    + intros [-> _]. field. exact Ht.
  - apply Z.ltb_ge in E. split; [intros H; discriminate H|]. lia.
Qed.

Lemma bandOf_complete p : bandOf p = band_complete <-> (p == 100)%Q.
Proof.
  unfold bandOf. destruct (Qeq_bool p 100) eqn:E.
  - apply Qeq_bool_iff in E. tauto.
  - apply Qeq_bool_neq in E.
    split; [|tauto]. destruct (Qle_bool 75 p), (Qle_bool 50 p); discriminate.
Qed.

(** X6. When the completed ids are tasks of the schedule, the width
    [updateProgress] gives the progress bar is between 0 and 100 per cent,
    and the bar is in its last colour band exactly when every task of a
    schedule with at least one task is completed. *)
Theorem progress_within_bounds (s : State) (sch : Schedule) (bar : Q * Band) :
  schedule s = Some sch -> progressBarFill s = Some bar ->
  NoDup (completedTasks s) ->
  (forall taskId, taskId ∈ completedTasks s -> taskId ∈ task_ids sch) ->
  exists p band,
    progressBarFill (state_of (updateProgress s)) = Some (p, band)
    /\ (0 <= p /\ p <= 100)%Q
    /\ (band = band_complete <->
        StringSet.size (completedTasks s) = countTasks sch /\ 0 < countTasks sch).
Proof.
  intros Hs Hb Hnd Hsub.
  eexists _, _. split; [apply (updateProgress_bar s sch bar Hs Hb)|].
  split.
  - apply percentage_ratio. rewrite countTasks_length. unfold StringSet.size.
    pose proof (submseteq_length _ _ (NoDup_submseteq _ _ Hnd Hsub)). lia.
  - rewrite bandOf_complete. apply percentage_full.
Qed.

Lemma progress_within_bounds_witness :
  exists p band,
    progressBarFill (state_of (updateProgress (sample_state [str "wake"] ∅)))
    = Some (p, band)
    /\ (0 <= p /\ p <= 100)%Q.
Proof.
  destruct (progress_within_bounds (sample_state [str "wake"] ∅) sample_schedule
              (0%Q, band_low))
    as (p & band & Hbar & Hrange & _).
  - reflexivity.
  - vm_compute. reflexivity.
  - apply (bool_decide_unpack _). vm_compute. exact I.
  - intros taskId Hin. apply (bool_decide_unpack _).
    apply list_elem_of_singleton in Hin as ->. vm_compute. exact I.
  - exists p, band. split; [exact Hbar|exact Hrange].
Defined.

(** ** Resetting the day *)

Lemma bandOf_zero p : (p == 0)%Q -> bandOf p = band_low.
Proof. intros H. unfold bandOf. case_Q_tests. Qed.

Lemma percentage_empty t : (percentage (StringSet.size []) t == 0)%Q.
Proof.
  unfold percentage, StringSet.size. destruct (0 <? t); [|reflexivity].
  cbn [length Z.of_nat]. unfold Qdiv. now rewrite !Qmult_0_l.
Qed.

(** X5. [resetDay] changes nothing when the confirmation is declined.
    When it is accepted, it ends normally with an empty completion set,
    the day's record removed from the storage and every other record and
    the key kept, so that a later [loadCompletedTasks] finds nothing; on a
    page with a schedule the rows are those of the schedule with none
    checked, the bar, when there is one, is at 0 in its first band, and
    the progress line, when there is one, reads 0 out of the number of
    tasks. *)
Theorem resetDay_clears (s : State) :
  resetDay false s = Normal tt s
  /\ exists s',
       resetDay true s = Normal tt s'
       /\ completedTasks s' = []
       /\ storageKey s' = storageKey s
       /\ localStorage s' = delete (storageKey s) (localStorage s)
       /\ loadCompletedTasks s' = Some (Normal tt s')
       /\ (forall sch, schedule s = Some sch ->
             rows_show sch s'
             /\ (forall taskId, rows s' !! taskId <> Some true)
             /\ (is_Some (progressBarFill s) ->
                 exists p, progressBarFill s' = Some (p, band_low) /\ (p == 0)%Q)
             /\ (is_Some (progressText s) ->
                 progressText s' = Some (0, countTasks sch))).
Proof.
  split; [reflexivity|].
  unfold resetDay. unfold bind at 1. unfold update at 1.
  unfold bind at 1. unfold bind at 1. unfold read at 1. unfold removeItem, update.
  unfold bind at 1.
  set (s1 := set_localStorage _ _).
  assert (Hload : forall s', completedTasks s' = [] -> storageKey s' = storageKey s ->
            localStorage s' = delete (storageKey s) (localStorage s) ->
            loadCompletedTasks s' = Some (Normal tt s')).
  { intros s' _ Hk Hl. unfold loadCompletedTasks.
    now rewrite Hl, Hk, lookup_delete_eq. }
  destruct (schedule s) as [sch|] eqn:Hs.
  - assert (Hs1 : schedule s1 = Some sch) by (subst s1; destruct s; exact Hs).
    destruct (renderSchedule_lookup s1 sch Hs1) as (s2 & Hrun & Hframe & Hshow).
    rewrite Hrun.
    assert (Hdone : completedTasks s2 = []) by (rewrite Hframe; reflexivity).
    assert (Hkey : storageKey s2 = storageKey s)
      by (rewrite Hframe; subst s1; now destruct s).
    assert (Hstore : localStorage s2 = delete (storageKey s) (localStorage s))
      by (rewrite Hframe; subst s1; now destruct s).
    assert (Hbar : progressBarFill s2 = progressBarFill s)
      by (rewrite Hframe; subst s1; now destruct s).
    assert (Htext : progressText s2 = progressText s)
      by (rewrite Hframe; subst s1; now destruct s).
    assert (Hs2 : schedule s2 = Some sch) by (rewrite Hframe; exact Hs1).
    clear Hframe Hrun. clearbody s1. clear s1 Hs1.
    destruct s2 as [sch2 done2 key2 coords2 t2 tza2 store2 rws2 bar2 text2 evs2].
    fields_in_all. subst sch2 done2 key2 store2 bar2 text2.
    unfold updateProgress, update, read, ret, bind. setters. fields.
    eexists. split; [reflexivity|].
    assert (Hrows : forall taskId, rws2 !! taskId <> Some true).
    { intros taskId. specialize (Hshow taskId). fields_in_all. rewrite Hshow.
      destruct (bool_decide _); discriminate. }
    destruct (progressBarFill s) as [bar|] eqn:Eb,
             (progressText s) as [text|] eqn:Et; fields;
      (split; [reflexivity|]); (split; [reflexivity|]); (split; [reflexivity|]);
      (split; [apply Hload; reflexivity|]);
      intros sch' Hsch'; injection Hsch' as <-;
      (split; [exact Hshow|]); (split; [exact Hrows|]);
      (split; [intros [? Hb]; try discriminate Hb
              |intros [? Ht]; try discriminate Ht; try reflexivity]).
    all: rewrite (bandOf_zero _ (percentage_empty (countTasks sch)));
      eexists; split; [reflexivity|]; apply percentage_empty.
  - subst s1.
    destruct s as [sch0 done key coords t tza store rws bar text evs].
    fields_in_all. subst sch0.
    unfold renderSchedule, updateProgress, bind, read, ret. setters. fields.
    eexists. split; [reflexivity|]. fields.
    split; [reflexivity|]. split; [reflexivity|]. split; [reflexivity|].
    split; [apply Hload; reflexivity|].
    intros sch1 Hsch. discriminate Hsch.
Qed.

(** ** The weather snapshot *)

Lemma Math_round_le (x : Q) (n : Z) : (x < inject_Z n + (1 # 2))%Q -> Math_round x <= n.
Proof.
  intros H. unfold Math_round.
  pose proof (Qfloor_le (x + (1 # 2))) as Hf.
  assert (Hlt : (inject_Z (Qfloor (x + (1 # 2))) < inject_Z (n + 1))%Q).
  { rewrite inject_Z_plus. change (inject_Z 1) with 1%Q. lra. }
  rewrite <- Zlt_Qlt in Hlt. lia.
Qed.

Lemma Math_round_mono x y : (x <= y)%Q -> Math_round x <= Math_round y.
Proof. intros H. unfold Math_round. apply Qfloor_resp_le. lra. Qed.

Lemma Math_round_near x :
  (inject_Z (Math_round x) <= x + (1 # 2) /\ x - (1 # 2) < inject_Z (Math_round x))%Q.
Proof.
  unfold Math_round.
  pose proof (Qfloor_le (x + (1 # 2))) as H1.
  pose proof (Qlt_floor (x + (1 # 2))) as H2.
  rewrite inject_Z_plus in H2. change (inject_Z 1) with 1%Q in H2.
  split; lra.
Qed.

Lemma nine_fifths x : (x * 9 / 5 == x * (9 # 5))%Q.
Proof. field. Qed.

(** The Fahrenheit label of a Celsius one. *)
Lemma fahrenheit_mono a b :
  a <= b ->
  Math_round (inject_Z a * 9 / 5 + 32) <= Math_round (inject_Z b * 9 / 5 + 32).
Proof.
  intros H. apply Math_round_mono. rewrite Zle_Qle in H.
  rewrite !nine_fifths. lra.
Qed.

Lemma fahrenheit_strict a b :
  a < b ->
  Math_round (inject_Z a * 9 / 5 + 32) < Math_round (inject_Z b * 9 / 5 + 32).
Proof.
  intros H.
  destruct (Math_round_near (inject_Z a * 9 / 5 + 32)) as [Ha _].
  destruct (Math_round_near (inject_Z b * 9 / 5 + 32)) as [_ Hb].
  assert (Hab : (inject_Z a + 1 <= inject_Z b)%Q).
  { change 1%Q with (inject_Z 1). rewrite <- inject_Z_plus, <- Zle_Qle. lia. }
  rewrite Zlt_Qlt.
  generalize dependent (inject_Z (Math_round (inject_Z a * 9 / 5 + 32))).
  generalize dependent (inject_Z (Math_round (inject_Z b * 9 / 5 + 32))).
  intros fb Hb fa Ha. rewrite nine_fifths in Ha, Hb. lra.
Qed.

(** X9. In the snapshot of [fetchWeatherData], from a forecast or from
    the fallback, the Fahrenheit labels are ordered as the Celsius ones
    are, strictly where these are strictly, and the Fahrenheit temperature
    is within one half of the exact conversion of the Celsius label; from
    a forecast whose current temperature lies between the day's minimum
    and maximum, the Celsius low, temperature and high are in that
    order. *)
Theorem fetchWeatherData_labels (response : option Forecast) (random : nat -> Q)
    (locationName : jsstring) :
  let w := fetchWeatherData response random locationName in
  (low w <= temperature w -> lowF w <= temperatureF w)
  /\ (temperature w <= high w -> temperatureF w <= highF w)
  /\ (low w < temperature w -> lowF w < temperatureF w)
  /\ (temperature w < high w -> temperatureF w < highF w)
  /\ (inject_Z (temperature w) * 9 / 5 + 32 - (1 # 2) < inject_Z (temperatureF w)
      /\ inject_Z (temperatureF w) <= inject_Z (temperature w) * 9 / 5 + 32 + (1 # 2))%Q
  /\ (forall data, response = Some data ->
        (temperature_2m_min data <= temperature_2m data)%Q ->
        (temperature_2m data <= temperature_2m_max data)%Q ->
        low w <= temperature w <= high w).
Proof.
  intros w.
  assert (HF : temperatureF w = Math_round (inject_Z (temperature w) * 9 / 5 + 32)
               /\ lowF w = Math_round (inject_Z (low w) * 9 / 5 + 32)
               /\ highF w = Math_round (inject_Z (high w) * 9 / 5 + 32)).
  { subst w. destruct response; repeat split. }
  destruct HF as (Ht & Hl & Hh). rewrite Ht, Hl, Hh.
  split; [apply fahrenheit_mono|].
  split; [apply fahrenheit_mono|].
  split; [apply fahrenheit_strict|].
  split; [apply fahrenheit_strict|].
  split.
  - destruct (Math_round_near (inject_Z (temperature w) * 9 / 5 + 32)) as [Hn1 Hn2].
    generalize dependent (inject_Z (Math_round (inject_Z (temperature w) * 9 / 5 + 32))).
    intros f Hn1 Hn2. split; assumption.
  - intros data -> Hmin Hmax. subst w. cbn [fetchWeatherData fetchedWeatherData low temperature high].
    split; now apply Math_round_mono.
Qed.

Lemma fetchWeatherData_labels_witness :
  let w := fetchWeatherData (Some (mkForecast (21 # 2) 40 2 18 4 (Some 6%Q))) half [] in
  low w <= temperature w <= high w /\ lowF w < temperatureF w < highF w.
Proof.
  intros w.
  destruct (fetchWeatherData_labels
              (Some (mkForecast (21 # 2) 40 2 18 4 (Some 6%Q))) half [])
    as (_ & _ & Hlow & Hhigh & _ & Hdata).
  fold w in Hlow, Hhigh, Hdata.
  split.
  - apply (Hdata _ eq_refl); vm_compute; discriminate.
  - split; [apply Hlow|apply Hhigh]; reflexivity.
Defined.

(** X7. The position [calculateTempPosition] gives the marker of the
    temperature gauge is always between 5 and 95 per cent, and it does not
    decrease when the current temperature rises. *)
Theorem gauge_position (current low high : Q) :
  (5 <= calculateTempPosition current low high
   /\ calculateTempPosition current low high <= 95)%Q
  /\ forall current',
       (current <= current')%Q ->
       (calculateTempPosition current low high
        <= calculateTempPosition current' low high)%Q.
Proof.
  unfold calculateTempPosition, degenerate.
  destruct (Qle_bool high low) eqn:E.
  - split; [split; discriminate|]. intros. apply Qle_refl.
  - apply not_true_iff_false in E. rewrite Qle_bool_iff in E.
    assert (Hr : (0 < high - low)%Q) by lra.
    split.
    + split.
      * apply Q.le_max_l.
      * apply Q.max_lub; [discriminate|]. apply Q.le_min_l.
    + intros current' Hc.
      apply Q.max_le_compat_l, Q.min_le_compat_l.
      apply Qmult_le_compat_r; [|discriminate].
      unfold Qdiv. apply Qmult_le_compat_r; [lra|].
      apply Qlt_le_weak, Qinv_lt_0_compat, Hr.
Qed.

Lemma Math_floor_range r : (0 <= r /\ r < 1)%Q -> 0 <= Math_floor (r * 4) <= 3.
Proof.
  intros [H0 H1]. unfold Math_floor. split.
  - rewrite <- (Qfloor_Z 0). apply Qfloor_resp_le. change (inject_Z 0) with 0%Q. lra.
  - pose proof (Qfloor_le (r * 4)) as Hf.
    assert (Hlt : (inject_Z (Qfloor (r * 4)) < inject_Z 4)%Q).
    { change (inject_Z 4) with 4%Q. lra. }
    rewrite <- Zlt_Qlt in Hlt. lia.
Qed.

Lemma round_between (x : Q) (a b : Z) :
  (inject_Z a <= x)%Q -> (x < inject_Z b + (1 # 2))%Q -> a <= Math_round x <= b.
Proof. intros Ha Hb. split; [now apply Math_round_ge | now apply Math_round_le]. Qed.

(** X8. With every draw of [Math.random()] in [0, 1), the snapshot of
    [getMockWeatherData] has a temperature from 18 to 33, a high from 2 to
    7 above it and a low from 2 to 7 below it, one of the four
    descriptions of the method, the condition clear, a UV index from 1 to
    11 and a humidity from 40 to 80. *)
Theorem mock_weather_plausible (random : nat -> Q) (locationName : jsstring) :
  (forall k, (0 <= random k /\ random k < 1)%Q) ->
  let w := getMockWeatherData random locationName in
  18 <= temperature w <= 33
  /\ temperature w + 2 <= high w <= temperature w + 7
  /\ temperature w - 7 <= low w <= temperature w - 2
  /\ (exists text, description w = Some text
        /\ In text [str "Sunny"; str "Partly Cloudy"; str "Cloudy"; str "Light Rain"])
  /\ condition w = clear
  /\ 1 <= uvIndex w <= 11
  /\ 40 <= humidity w <= 80.
Proof.
  intros Hr w.
  pose proof (Hr 0%nat) as [R0 R0']. pose proof (Hr 1%nat) as [R1 R1'].
  pose proof (Hr 2%nat) as [R2 R2']. pose proof (Hr 3%nat) as R3.
  pose proof (Hr 4%nat) as [R4 R4']. pose proof (Hr 5%nat) as [R5 R5'].
  assert (Ht : 18 <= Math_round (18 + random 0%nat * 15) <= 33).
  { apply round_between; [change (inject_Z 18) with 18%Q|change (inject_Z 33) with 33%Q]; lra. }
  assert (Hh : 2 <= Math_round (random 1%nat * 5 + 2) <= 7).
  { apply round_between; [change (inject_Z 2) with 2%Q|change (inject_Z 7) with 7%Q]; lra. }
  assert (Hl : 2 <= Math_round (random 2%nat * 5 + 2) <= 7).
  { apply round_between; [change (inject_Z 2) with 2%Q|change (inject_Z 7) with 7%Q]; lra. }
  assert (Hu : 1 <= Math_round (1 + random 4%nat * 10) <= 11).
  { apply round_between; [change (inject_Z 1) with 1%Q|change (inject_Z 11) with 11%Q]; lra. }
  assert (Hm : 40 <= Math_round (40 + random 5%nat * 40) <= 80).
  { apply round_between; [change (inject_Z 40) with 40%Q|change (inject_Z 80) with 80%Q]; lra. }
  apply Math_floor_range in R3.
  subst w. cbn [getMockWeatherData temperature high low description condition uvIndex humidity].
  split; [exact Ht|]. split; [lia|]. split; [lia|].
  split; [|split; [reflexivity|split; assumption]].
  assert (Hi : Math_floor (random 3%nat * 4) = 0 \/ Math_floor (random 3%nat * 4) = 1
               \/ Math_floor (random 3%nat * 4) = 2 \/ Math_floor (random 3%nat * 4) = 3)
    by lia.
  destruct Hi as [-> |[-> |[-> | ->]]]; eexists; (split; [reflexivity|]);
    cbn [In]; tauto.
Qed.

Lemma mock_weather_plausible_witness :
  18 <= temperature (getMockWeatherData half []) <= 33
  /\ condition (getMockWeatherData half []) = clear.
Proof.
  destruct (mock_weather_plausible half []) as (Ht & _ & _ & _ & Hc & _).
  - intros k. unfold half, Qle, Qlt. simpl. lia.
  - split; [exact Ht|exact Hc].
Defined.

(** ** Day keys and days *)

Module DayFacts.
Import Date.

Lemma DayFromYear_succ y :
  DayFromYear (y + 1) = DayFromYear y + (if InLeapYear y then 366 else 365).
Proof.
  unfold DayFromYear, InLeapYear.
  destruct (y mod 4 =? 0) eqn:E4; cbn [negb];
    [destruct (y mod 100 =? 0) eqn:E100; cbn [negb];
       [destruct (y mod 400 =? 0) eqn:E400; cbn [negb]|]|];
    Z.to_euclidean_division_equations; lia.
Qed.

Lemma DayWithinYear_range t :
  0 <= DayWithinYear t < (if InLeapYear (YearFromTime t) then 366 else 365).
Proof.
  unfold DayWithinYear, YearFromTime.
  pose proof (DateFacts.DayFromYear_YearFromDay (Day t)) as H.
  rewrite DayFromYear_succ in H. lia.
Qed.

Lemma MonthFromTime_range t : 0 <= MonthFromTime t <= 11.
Proof.
  unfold MonthFromTime. cbv zeta.
  repeat match goal with |- context [if ?b then _ else _] => destruct b end; lia.
Qed.

Ltac case_ifs :=
  repeat match goal with
  | |- context [if ?b then _ else _] => destruct b eqn:?; cbv iota beta
  end.

Lemma DayWithinYear_decomp t :
  DayWithinYear t =
  DateFromTime t - 1
  + match MonthFromTime t with
    | 0 => 0
    | 1 => 31
    | 2 => 59 + (if InLeapYear (YearFromTime t) then 1 else 0)
    | 3 => 90 + (if InLeapYear (YearFromTime t) then 1 else 0)
    | 4 => 120 + (if InLeapYear (YearFromTime t) then 1 else 0)
    | 5 => 151 + (if InLeapYear (YearFromTime t) then 1 else 0)
    | 6 => 181 + (if InLeapYear (YearFromTime t) then 1 else 0)
    | 7 => 212 + (if InLeapYear (YearFromTime t) then 1 else 0)
    | 8 => 243 + (if InLeapYear (YearFromTime t) then 1 else 0)
    | 9 => 273 + (if InLeapYear (YearFromTime t) then 1 else 0)
    | 10 => 304 + (if InLeapYear (YearFromTime t) then 1 else 0)
    | _ => 334 + (if InLeapYear (YearFromTime t) then 1 else 0)
    end.
Proof.
  unfold DateFromTime, MonthFromTime. cbv zeta.
  generalize (DayWithinYear t). intros d.
  generalize (if InLeapYear (YearFromTime t) then 1 else 0). intros l.
  case_ifs; lia.
Qed.

Lemma DateFromTime_range t : 1 <= DateFromTime t <= 31.
Proof.
  pose proof (DayWithinYear_range t) as Hd. revert Hd.
  unfold DateFromTime, MonthFromTime. cbv zeta.
  generalize (DayWithinYear t). intros d.
  destruct (InLeapYear (YearFromTime t)); intros Hd; case_ifs; lia.
Qed.

Lemma pad2_inj a b : 0 <= a < 100 -> 0 <= b < 100 -> pad2 a = pad2 b -> a = b.
Proof.
  unfold pad2, digit. intros Ha Hb H. injection H as H1 H0.
  Z.to_euclidean_division_equations. lia.
Qed.

Lemma pad4_inj a b : 0 <= a <= 9999 -> 0 <= b <= 9999 -> pad4 a = pad4 b -> a = b.
Proof.
  unfold pad4, digit. intros Ha Hb H. injection H as H3 H2 H1 H0.
  Z.to_euclidean_division_equations. lia.
Qed.

(** The date part is that of the day a time value falls in. *)
Lemma isoDate_Day t1 t2 : Day t1 = Day t2 -> isoDate t1 = isoDate t2.
Proof.
  intros H.
  unfold isoDate, DateFromTime, MonthFromTime, DayWithinYear, YearFromTime.
  now rewrite H.
Qed.

(** In the years 0 to 9999, two days have two date parts. *)
Lemma isoDate_inj t1 t2 :
  0 <= YearFromTime t1 <= 9999 -> 0 <= YearFromTime t2 <= 9999 ->
  isoDate t1 = isoDate t2 -> Day t1 = Day t2.
Proof.
  intros Hy1 Hy2 H.
  assert (Hparts : pad4 (YearFromTime t1) = pad4 (YearFromTime t2)
                   /\ pad2 (MonthFromTime t1 + 1) = pad2 (MonthFromTime t2 + 1)
                   /\ pad2 (DateFromTime t1) = pad2 (DateFromTime t2)).
  { revert H. unfold isoDate, isoYear.
    replace ((0 <=? YearFromTime t1) && (YearFromTime t1 <=? 9999)) with true by lia.
    replace ((0 <=? YearFromTime t2) && (YearFromTime t2 <=? 9999)) with true by lia.
    unfold pad4, pad2. cbn [app str List.map list_ascii_of_string].
    intros H. injection H as E1 E2 E3 E4 E5 E6 E7 E8.
    now rewrite E1, E2, E3, E4, E5, E6, E7, E8. }
  destruct Hparts as (Hy & Hm & Hd).
  apply pad4_inj in Hy; [|assumption..].
  pose proof (MonthFromTime_range t1). pose proof (MonthFromTime_range t2).
  apply pad2_inj in Hm; [|lia..].
  pose proof (DateFromTime_range t1). pose proof (DateFromTime_range t2).
  apply pad2_inj in Hd; [|lia..].
  assert (Hm' : MonthFromTime t1 = MonthFromTime t2) by lia.
  pose proof (DayWithinYear_decomp t1) as D1.
  pose proof (DayWithinYear_decomp t2) as D2.
  rewrite Hy, Hm', Hd in D1. rewrite <- D2 in D1.
  unfold DayWithinYear in D1. rewrite Hy in D1. lia.
Qed.

(** In the years 0 to 9999, the day key names the UTC day. *)
Lemma dateKeyAt_Day t1 t2 :
  -62167219200000 <= t1 < 253402300800000 ->
  -62167219200000 <= t2 < 253402300800000 ->
  dateKeyAt t1 = dateKeyAt t2 <-> Day t1 = Day t2.
Proof.
  intros H1 H2. rewrite !DateFacts.dateKeyAt_isoDate. split.
  - apply isoDate_inj; now apply DateFacts.YearFromTime_range.
  - apply isoDate_Day.
Qed.
End DayFacts.

(** ** The check of every minute *)

Lemma startsWith_app p k : startsWith (p ++ k) p = true.
Proof.
  induction p as [|c p IH]; [now destruct k|].
  cbn [app startsWith]. now rewrite Z.eqb_refl, IH.
Qed.

Lemma replace_prefix p k : replace (p ++ k) p [] = k.
Proof.
  assert (H : replace (p ++ k) p [] = [] ++ skipn (length p) (p ++ k)).
  { destruct (p ++ k) eqn:E; cbn [replace]; rewrite <- E, startsWith_app; reflexivity. }
  rewrite H. cbn [app]. rewrite skipn_app, skipn_all, Nat.sub_diag. reflexivity.
Qed.

(** X12. The check [setupMidnightRefresh] runs every minute, on a page
    whose storage key is that of the time [started] (years 0 to 9999):
    while the clock is in the UTC day of [started] it changes nothing; as
    soon as the clock is in another UTC day it runs
    [resetLocationToDefault] and then reloads the page, once. *)
Theorem pollRefresh_day_change (s : State) (started : Z) :
  storageKey s = str "dailyTracker_" ++ dateKeyAt started ->
  -62167219200000 <= started < 253402300800000 ->
  -62167219200000 <= now s < 253402300800000 ->
  (Date.Day (now s) = Date.Day started -> pollRefresh s = Normal tt s)
  /\ (Date.Day (now s) <> Date.Day started ->
      exists s',
        resetLocationToDefault s = Normal tt s'
        /\ pollRefresh s = Normal tt (set_events (events s' ++ [Reload]) s')).
Proof.
  intros Hkey Ht0 Ht.
  assert (Hpoll : pollRefresh s =
            if bool_decide (dateKeyAt (now s) = dateKeyAt started)
            then Normal tt s
            else (resetLocationToDefault ;;; reload) s).
  { unfold pollRefresh, bind at 1 2, getCurrentDateKey, read.
    rewrite Hkey, replace_prefix. now destruct (bool_decide _). }
  rewrite Hpoll. split; intros Hday.
  - rewrite bool_decide_eq_true_2; [reflexivity|].
    now apply DayFacts.dateKeyAt_Day.
  - rewrite bool_decide_eq_false_2
      by (intros Hk; apply Hday; now apply DayFacts.dateKeyAt_Day).
    destruct (resetLocationToDefault_result s) as (s' & Hrun & _).
    exists s'. split; [exact Hrun|].
    unfold reload, log, update, bind. now rewrite Hrun.
Qed.

Lemma pollRefresh_day_change_witness :
  pollRefresh (at_time (sample_time + 3600000) (sample_state [] two_day_storage))
  = Normal tt (at_time (sample_time + 3600000) (sample_state [] two_day_storage))
  /\ exists s',
       resetLocationToDefault
         (at_time (sample_time + 64800000) (sample_state [] two_day_storage))
       = Normal tt s'
       /\ pollRefresh
            (at_time (sample_time + 64800000) (sample_state [] two_day_storage))
          = Normal tt (set_events (events s' ++ [Reload]) s').
Proof.
  split.
  - apply (pollRefresh_day_change
             (at_time (sample_time + 3600000) (sample_state [] two_day_storage))
             sample_time).
    + reflexivity.
    + vm_compute. split; [discriminate|reflexivity].
    + vm_compute. split; [discriminate|reflexivity].
    + vm_compute. reflexivity.
  - apply (pollRefresh_day_change
             (at_time (sample_time + 64800000) (sample_state [] two_day_storage))
             sample_time).
    + reflexivity.
    + vm_compute. split; [discriminate|reflexivity].
    + vm_compute. split; [discriminate|reflexivity].
    + vm_compute. discriminate.
Defined.

(** X11. [resetLocationToDefault] always ends normally, and running it
    again on the state it leaves changes nothing. *)
Theorem resetLocationToDefault_idempotent (s : State) :
  exists s',
    resetLocationToDefault s = Normal tt s'
    /\ resetLocationToDefault s' = Normal tt s'.
Proof.
  destruct (resetLocationToDefault_result s) as (s' & Hrun & Hframe & Hlook).
  exists s'. split; [exact Hrun|].
  destruct (resetLocationToDefault_result s') as (s2 & Hrun2 & Hframe2 & Hlook2).
  rewrite Hrun2. f_equal.
  assert (Hnow : now s' = now s) by (rewrite Hframe; reflexivity).
  assert (Hstore : localStorage s2 = localStorage s').
  { apply map_eq. intros key. rewrite Hlook2, Hnow, Hlook.
    now destruct (stale _ key). }
  rewrite Hframe2, Hstore. rewrite Hframe at 2. setters. fields.
  rewrite Hframe. reflexivity.
Qed.

(** X10. For every weather code, [getWeatherDescription] and
    [getWeatherCondition] agree: the description is Unknown, or the pair
    of the description and the condition is one of sixteen pairs, in
    which every drizzle and rain is rain, every snow is snow, both fogs
    are shown as clear, and Thunderstorm is thunderstorm. *)
Theorem described_codes (code : Q) :
  getWeatherDescription code = str "Unknown"
  \/ In (getWeatherDescription code, getWeatherCondition code)
       [ (str "Clear Sky", clear); (str "Mainly Clear", clear);
         (str "Partly Cloudy", clouds); (str "Overcast", clouds);
         (str "Fog", clear); (str "Depositing Rime Fog", clear);
         (str "Light Drizzle", rain); (str "Moderate Drizzle", rain);
         (str "Dense Drizzle", rain); (str "Slight Rain", rain);
         (str "Moderate Rain", rain); (str "Heavy Rain", rain);
         (str "Slight Snow", snow); (str "Moderate Snow", snow);
         (str "Heavy Snow", snow); (str "Thunderstorm", thunderstorm) ].
Proof.
  assert (Hcond : forall n c,
            Qeq_bool code (inject_Z n) = true ->
            getWeatherCondition (inject_Z n) = c -> getWeatherCondition code = c).
  { intros n c E <-. apply Qeq_bool_iff in E. unfold getWeatherCondition.
    assert (H1 : forall k, Qeq_bool code k = Qeq_bool (inject_Z n) k)
      by (intros k; now rewrite E).
    assert (H2 : forall k, Qle_bool k code = Qle_bool k (inject_Z n))
      by (intros k; now rewrite E).
    assert (H3 : forall k, Qle_bool code k = Qle_bool (inject_Z n) k)
      by (intros k; now rewrite E).
    now rewrite !H1, !H2, !H3. }
  unfold getWeatherDescription, descriptions. cbn [find fst snd].
  repeat match goal with
  | |- context [Qeq_bool code (inject_Z ?n)] =>
      destruct (Qeq_bool code (inject_Z n)) eqn:?;
        [right; erewrite (Hcond n) by (eassumption || reflexivity);
         cbn [In]; tauto|]
  end.
  now left.
Qed.

(** ** Sessions and reloads *)



Lemma fold_add_elem l : forall acc x,
  x ∈ fold_left StringSet.add l acc <-> x ∈ acc \/ x ∈ l.
Proof.
  induction l as [|y l IH]; intros acc x; cbn [fold_left].
  - rewrite elem_of_nil. tauto.
  - rewrite IH, elem_of_cons, <- !SetFacts.has_true, SetFacts.has_add.
    rewrite orb_true_iff, bool_decide_eq_true. tauto.
Qed.

Lemma fold_add_length l : forall acc,
  (length (fold_left StringSet.add l acc) <= length acc + length l)%nat.
Proof.
  induction l as [|y l IH]; intros acc; cbn [fold_left length]; [lia|].
  etransitivity; [apply IH|]. unfold StringSet.add.
  destruct (StringSet.has acc y); rewrite ?length_app; simpl; lia.
Qed.

(** X13. What [loadCompletedTasks] makes of a stored text that parses:
    from an array of strings, a completion set without duplicates, with
    exactly the strings of the array as members and at most as many of
    them, and nothing else changed; from [null], the empty set; from a value that
    is not iterable (a number, a boolean, an object), a TypeError with
    nothing changed. *)
Theorem load_stored_value (s : State) (saved : jsstring) (v : json) :
  localStorage s !! storageKey s = Some saved -> saved <> [] ->
  JSON.parse saved = Some v ->
  (forall items, v = JArray (List.map JString items) ->
     exists s',
       loadCompletedTasks s = Some (Normal tt s')
       /\ s' = set_completedTasks (completedTasks s') s
       /\ NoDup (completedTasks s')
       /\ (forall x, x ∈ completedTasks s' <-> x ∈ items)
       /\ (length (completedTasks s') <= length items)%nat)
  /\ (v = JNull ->
      loadCompletedTasks s = Some (Normal tt (set_completedTasks [] s)))
  /\ (iterate v = NotIterable -> loadCompletedTasks s = Some (Throw TypeError s)).
Proof.
  intros Hl Hne Hp.
  assert (Hload : loadCompletedTasks s =
            match iterate v with
            | Items l => Some (Normal tt (set_completedTasks (StringSet.of_list l) s))
            | NotIterable => Some (Throw TypeError s)
            | NotStrings => None
            end).
  { unfold loadCompletedTasks. rewrite Hl.
    destruct saved as [|c saved]; [congruence|]. now rewrite Hp. }
  rewrite Hload. split; [|split].
  - intros items ->. cbn [iterate]. rewrite strings_of_strings.
    eexists. split; [reflexivity|]. split; [now destruct s|].
    setters. fields. split; [apply SetFacts.NoDup_of_list|]. split.
    + intros x. unfold StringSet.of_list. rewrite fold_add_elem, elem_of_nil. tauto.
    + apply (fold_add_length items []).
  - intros ->. reflexivity.
  - intros ->. reflexivity.
Qed.

Lemma load_stored_value_witness :
  exists s',
    loadCompletedTasks
      (sample_state [] (synced_storage [str "wake"; str "wake"; str "read"]))
    = Some (Normal tt s')
    /\ NoDup (completedTasks s')
    /\ (length (completedTasks s') <= 3)%nat.
Proof.
  destruct (load_stored_value
              (sample_state [] (synced_storage [str "wake"; str "wake"; str "read"]))
              (JSON_stringify [str "wake"; str "wake"; str "read"])
              (JArray (List.map JString [str "wake"; str "wake"; str "read"])))
    as (Harray & _).
  - vm_compute. reflexivity.
  - vm_compute. discriminate.
  - vm_compute. reflexivity.
  - destruct (Harray [str "wake"; str "wake"; str "read"] eq_refl)
      as (s' & Hrun & _ & Hnd & _ & Hlen).
    exists s'. split; [exact Hrun|]. split; [exact Hnd|exact Hlen].
Defined.


(** X14. Two sessions, started in the years 0 to 9999, keep their
    completion record under the same storage key exactly when they are
    constructed in the same UTC day. *)
Theorem session_key_per_day (s1 s2 : State) :
  -62167219200000 <= now s1 < 253402300800000 ->
  -62167219200000 <= now s2 < 253402300800000 ->
  storageKey (state_of (constructor s1)) = storageKey (state_of (constructor s2))
  <-> Date.Day (now s1) = Date.Day (now s2).
Proof.
  intros H1 H2. rewrite !constructor_storageKey.
  rewrite <- (DayFacts.dateKeyAt_Day _ _ H1 H2). split.
  - apply app_inv_head.
  - now intros ->.
Qed.

Lemma session_key_per_day_witness :
  storageKey (state_of (constructor (sample_state [] ∅)))
  = storageKey (state_of (constructor (at_time (sample_time + 64800000)
                                         (sample_state [] ∅))))
  <-> Date.Day sample_time = Date.Day (sample_time + 64800000).
Proof.
  apply (session_key_per_day (sample_state [] ∅)
           (at_time (sample_time + 64800000) (sample_state [] ∅))).
  - vm_compute. split; [discriminate|reflexivity].
  - vm_compute. split; [discriminate|reflexivity].
Defined.





